(** * tempo: real-time audio analysis while playing

    A shallow embedding of the three programs of the repository:

    - [Tui]      : [main.go], the terminal UI that shows RMS amplitude and
                   dominant frequency (the command-line program that prints
                   the same two numbers has the same [Stream], statement for
                   statement);
    - [Spectrum] : the 30-band spectrum analyzer;
    - [Driver]   : the playlist loop of [main] and [playAndAnalyze];
    - [Scan]     : [scanMusicDir], the same in every program;
    - [Player]   : [main] and [playAndAnalyze] of the spectrum program;
    - [Display]  : what [View] and [printAnalysis] draw, and [Update].

    Conventions of the embedding.

    - A Go [float64] is a value of [float64] below: a real number, one of the
      two infinities, or NaN.  Arithmetic on finite values is exact; the
      special values follow IEEE 754 (x/0, 0/0, sqrt and log10 of negative
      numbers, comparisons with NaN).  Rounding, overflow and the sign of
      zero are not modelled.  Where a statement depends on rounding, the
      same code is embedded in binary64, bit for bit ([Tui64], on the
      primitive floats of Rocq: IEEE 754 binary64, round to nearest even,
      every operation rounded on its own as the Go compiler does on amd64).
    - A Go slice is a list; [copy] and indexing are written out, and an index
      out of range is the outcome [Panic].
    - The wrapped [beep.Streamer] and [fft.FFT] of go-dsp are code of other
      repositories: they are parameters of the analyzer.  [DFT] is the
      discrete Fourier transform that [fft.FFT] computes. *)

From Stdlib Require Import String Ascii Reals Lra Lia ZArith Bool List.
From Stdlib Require Floats Uint63.
Import ListNotations.

Set Implicit Arguments.

(** * float64 *)

Inductive float64 : Type :=
| Fin (r : R)
| Inf (neg : bool)
| NaN.

Module F64.

Local Open Scope R_scope.

Definition Req_b (a b : R) : bool := if Req_dec_T a b then true else false.
Definition Rlt_b (a b : R) : bool := if Rlt_dec a b then true else false.

Definition zero : float64 := Fin 0.

(** float64(i) for an int i *)
Definition of_int (z : Z) : float64 := Fin (IZR z).

Definition add (x y : float64) : float64 :=
  match x, y with
  | NaN, _ | _, NaN => NaN
  | Fin a, Fin b => Fin (a + b)
  | Inf s, Fin _ => Inf s
  | Fin _, Inf s => Inf s
  | Inf s, Inf s' => if Bool.eqb s s' then Inf s else NaN
  end.

Definition sub (x y : float64) : float64 :=
  match x, y with
  | NaN, _ | _, NaN => NaN
  | Fin a, Fin b => Fin (a - b)
  | Inf s, Fin _ => Inf s
  | Fin _, Inf s => Inf (negb s)
  | Inf s, Inf s' => if Bool.eqb s s' then NaN else Inf s
  end.

Definition mul (x y : float64) : float64 :=
  match x, y with
  | NaN, _ | _, NaN => NaN
  | Fin a, Fin b => Fin (a * b)
  | Inf s, Fin b | Fin b, Inf s =>
      if Req_b b 0 then NaN else Inf (xorb s (Rlt_b b 0))
  | Inf s, Inf s' => Inf (xorb s s')
  end.

Definition div (x y : float64) : float64 :=
  match x, y with
  | NaN, _ | _, NaN => NaN
  | Fin a, Fin b =>
      if Req_b b 0
      then (if Req_b a 0 then NaN else Inf (Rlt_b a 0))
      else Fin (a / b)
  | Fin _, Inf _ => Fin 0
  | Inf s, Fin b => Inf (xorb s (Rlt_b b 0))
  | Inf _, Inf _ => NaN
  end.

(** math.Sqrt *)
Definition sqrt (x : float64) : float64 :=
  match x with
  | NaN => NaN
  | Fin a => if Rlt_b a 0 then NaN else Fin (R_sqrt.sqrt a)
  | Inf false => Inf false
  | Inf true => NaN
  end.

(** math.Log10 *)
Definition log10 (x : float64) : float64 :=
  match x with
  | NaN => NaN
  | Fin a =>
      if Rlt_b a 0 then NaN
      else if Req_b a 0 then Inf true
      else Fin (ln a / ln 10)
  | Inf false => Inf false
  | Inf true => NaN
  end.

(** x < y; false as soon as one side is NaN *)
Definition ltb (x y : float64) : bool :=
  match x, y with
  | NaN, _ | _, NaN => false
  | Fin a, Fin b => Rlt_b a b
  | Fin _, Inf s => negb s
  | Inf s, Fin _ => s
  | Inf s, Inf s' => s && negb s'
  end.

(** x > y *)
Definition gtb (x y : float64) : bool := ltb y x.

End F64.

(** complex128, with the arithmetic of Go's complex numbers *)
Definition complex128 : Type := (float64 * float64)%type.

Definition real (c : complex128) : float64 := fst c.
Definition imag (c : complex128) : float64 := snd c.
Definition complex (re im : float64) : complex128 := (re, im).

Definition cadd (x y : complex128) : complex128 :=
  (F64.add (real x) (real y), F64.add (imag x) (imag y)).

Definition cmul (x y : complex128) : complex128 :=
  (F64.sub (F64.mul (real x) (real y)) (F64.mul (imag x) (imag y)),
   F64.add (F64.mul (real x) (imag y)) (F64.mul (imag x) (real y))).

(** * go-dsp: fft.FFT

    Modelled from the spec: the transform of the analysis channel is "a
    discrete Fourier transform (any correct implementation: direct DFT or
    FFT)".  [fft.FFT] returns a copy of an input of length 0 or 1 and the
    transform X_k = sum_n x_n * exp(-2*pi*i*k*n/N) otherwise. *)

Definition angle (N k n : nat) : R := (2 * PI * INR (k * n) / INR N)%R.

Definition twiddle (N k n : nat) : complex128 :=
  complex (Fin (cos (angle N k n))) (Fin (- sin (angle N k n))).

Definition DFT_bin (x : list complex128) (k : nat) : complex128 :=
  fold_left cadd
    (map (fun nx => cmul (snd nx) (twiddle (length x) k (fst nx)))
         (combine (seq 0 (length x)) x))
    (complex F64.zero F64.zero).

Definition DFT (x : list complex128) : list complex128 :=
  if (length x <=? 1)%nat then x
  else map (DFT_bin x) (seq 0 (length x)).

(** * Go slices and run-time panics *)

(** copy(dst, src): the first min(len(dst), len(src)) elements of dst are
    overwritten; the result is dst after the call. *)
Definition copy {A : Type} (dst src : list A) : list A :=
  firstn (length dst) src ++ skipn (length src) dst.

(** s[i] = v, for an index in range *)
Fixpoint store {A : Type} (s : list A) (i : nat) (v : A) : list A :=
  match s, i with
  | [], _ => []
  | _ :: s', O => v :: s'
  | x :: s', S i' => x :: store s' i' v
  end.

(** The result of code that may panic (index or slice bound out of range). *)
Inductive outcome (A : Type) : Type :=
| Ret (a : A)
| Panic.
Arguments Panic {A}.

Definition bind {A B : Type} (m : outcome A) (k : A -> outcome B) : outcome B :=
  match m with
  | Ret a => k a
  | Panic => Panic
  end.

Notation "x <- m ;; k" := (bind m (fun x => k))
  (at level 61, m at next level, right associativity).

(** s[i], checked *)
Definition index {A : Type} (s : list A) (i : nat) : outcome A :=
  match nth_error s i with
  | Some v => Ret v
  | None => Panic
  end.

(** s[i] = v, checked *)
Definition assign {A : Type} (s : list A) (i : nat) (v : A) : outcome (list A) :=
  if (i <? length s)%nat then Ret (store s i v) else Panic.

(** One audio frame, [2]float64: left and right channel. *)
Definition frame : Type := (float64 * float64)%type.

(** sample[0] *)
Definition left (sample : frame) : float64 := fst sample.

(** beep.Streamer.Stream of the wrapped streamer, whose state has type [U]:
    from the streamer and the buffer handed to it, the buffer as the call
    leaves it (a callee writes into the caller's slice, it cannot resize
    it), the two results (n, ok), and the streamer afterwards. *)
Definition upstream_fn (U : Type) : Type :=
  U -> list frame -> (list frame * Z * bool) * U.

Definition sampleRate : Z := 44100.

(** The magnitude spectrum, the same loop in every variant of [Stream]:
<<
    magnitudes := make([]float64, len(fftResult)/2)
    for i := 0; i < len(fftResult)/2; i++ {
        mag := math.Sqrt(real(fftResult[i])*real(fftResult[i]) + imag(fftResult[i])*imag(fftResult[i]))
        magnitudes[i] = mag
    }
>>  *)
Definition magnitude (c : complex128) : float64 :=
  F64.sqrt (F64.add (F64.mul (real c) (real c)) (F64.mul (imag c) (imag c))).

Definition magnitudesOf (fftResult : list complex128) : list float64 :=
  map magnitude (firstn (length fftResult / 2) fftResult).

(** complex(sample[0], 0) for every frame of the block *)
Definition complexSamplesOf (block : list frame) : list complex128 :=
  map (fun sample => complex (left sample) F64.zero) block.

(** * main.go: RMS amplitude and dominant frequency *)

Module Tui.

Definition bufferSize : nat := 512.

Section Analyzer.

Variable U : Type.
Variable upstream : upstream_fn U.
Variable FFT : list complex128 -> list complex128.

Record analyzerStreamer : Type := mkAnalyzer {
  streamer : U;
  buffer : list frame;
  rms : float64;
  freq : float64
}.

(** sum += sample[0] * sample[0], over samples *)
Definition sumSquares (samples : list frame) : float64 :=
  fold_left (fun sum sample => F64.add sum (F64.mul (left sample) (left sample)))
            samples F64.zero.

(** math.Sqrt(sum / float64(len(samples))) *)
Definition rmsOf (samples : list frame) : float64 :=
  F64.sqrt (F64.div (sumSquares samples) (F64.of_int (Z.of_nat (length samples)))).

(** One round of the search for the largest magnitude; the state is
    (maxMag, maxIndex) and the loop index i. *)
Definition maxStep (st : float64 * Z * Z) (mag : float64) : float64 * Z * Z :=
  let '(maxMag, maxIndex, i) := st in
  if F64.gtb mag maxMag then (mag, i, (i + 1)%Z) else (maxMag, maxIndex, (i + 1)%Z).

Definition maxIndexOf (magnitudes : list float64) : Z :=
  snd (fst (fold_left maxStep magnitudes (F64.zero, 0%Z, 0%Z))).

(** float64(maxIndex) * sampleRate / float64(len(samples)) *)
Definition freqOf (samples : list frame) : float64 :=
  let fftResult := FFT (complexSamplesOf samples) in
  let magnitudes := magnitudesOf fftResult in
  let maxIndex := maxIndexOf magnitudes in
  F64.div (F64.mul (F64.of_int maxIndex) (F64.of_int sampleRate))
          (F64.of_int (Z.of_nat (length samples))).

(** func (a *analyzerStreamer) Stream(samples [][2]float64) (n int, ok bool):
    the analyzer and the buffer after the call, and the two results. *)
Definition Stream (a : analyzerStreamer) (samples : list frame)
  : analyzerStreamer * list frame * Z * bool :=
  let '(samples, n, ok, u) := upstream (streamer a) samples in
  let a := mkAnalyzer u (buffer a) (rms a) (freq a) in
  if negb ok then (a, samples, n, ok)
  else
    let a := mkAnalyzer (streamer a) (copy (buffer a) samples) (rms a) (freq a) in
    let a := mkAnalyzer (streamer a) (buffer a) (rmsOf samples) (freq a) in
    let a := mkAnalyzer (streamer a) (buffer a) (rms a) (freqOf samples) in
    (a, samples, n, ok).

(** The values the analyzer takes while one call of [Stream] runs, one per
    assignment to a field, in program order.  [Stream] runs on the speaker's
    goroutine (speaker.Play), [getAnalysis] on the goroutine of
    playAndAnalyze at every tick, with no lock between them: a tick that
    falls inside a call reads one of these values. *)
Definition StreamStates (a : analyzerStreamer) (samples : list frame)
  : list analyzerStreamer :=
  let '(samples, n, ok, u) := upstream (streamer a) samples in
  let a0 := mkAnalyzer u (buffer a) (rms a) (freq a) in
  if negb ok then [a0]
  else
    let a1 := mkAnalyzer (streamer a0) (copy (buffer a0) samples) (rms a0) (freq a0) in
    let a2 := mkAnalyzer (streamer a1) (buffer a1) (rmsOf samples) (freq a1) in
    let a3 := mkAnalyzer (streamer a2) (buffer a2) (rms a2) (freqOf samples) in
    [a0; a1; a2; a3].

(** func (a *analyzerStreamer) getAnalysis() (rms, freq float64) *)
Definition getAnalysis (a : analyzerStreamer) : float64 * float64 :=
  (rms a, freq a).

(** The analyzer that playAndAnalyze builds around a decoded stream. *)
Definition newAnalyzer (s : U) : analyzerStreamer :=
  mkAnalyzer s (repeat (F64.zero, F64.zero) bufferSize) F64.zero F64.zero.

End Analyzer.

End Tui.

(** * The spectrum analyzer: thirty bands *)

Module Spectrum.

Definition bufferSize : Z := 2048.
Definition numFrequencyBands : nat := 30.

(** A loop over the indices [idx], the body of which may panic. *)
Fixpoint forEach {A : Type} (body : A -> nat -> outcome A) (idx : list nat) (s : A)
  : outcome A :=
  match idx with
  | [] => Ret s
  | i :: idx' => s' <- body s i ;; forEach body idx' s'
  end.

(** binsPerBand := len(magnitudes) / numFrequencyBands, at least 1 *)
Definition binsPerBandOf (nb lenMagnitudes : nat) : nat :=
  let binsPerBand := (lenMagnitudes / nb)%nat in
  if (binsPerBand =? 0)%nat then 1%nat else binsPerBand.

(** 20 * math.Log10(magnitudes[j]+1e-6) *)
Definition decibels (mag : float64) : float64 :=
  F64.mul (Fin 20) (F64.log10 (F64.add mag (Fin (1 / 1000000)))).

(** The inner loop of band i,
<<
    for j := i * binsPerBand; j < (i+1)*binsPerBand && j < len(magnitudes); j++ {
        bandSum += 20 * math.Log10(magnitudes[j]+1e-6)
        binCount++
    }
>>
    entered at index j with k = (i+1)*binsPerBand - j rounds left before the
    first bound stops it. *)
Fixpoint bandLoop (magnitudes : list float64) (j k : nat)
         (bandSum : float64) (binCount : Z) : outcome (float64 * Z) :=
  match k with
  | O => Ret (bandSum, binCount)
  | S k' =>
      if (j <? length magnitudes)%nat then
        mag <- index magnitudes j ;;
        bandLoop magnitudes (S j) k' (F64.add bandSum (decibels mag)) (binCount + 1)%Z
      else Ret (bandSum, binCount)
  end.

(** The bins that the inner loop of a band reads, in the order it reads them. *)
Fixpoint binsRead (lenMagnitudes j k : nat) : list nat :=
  match k with
  | O => []
  | S k' =>
      if (j <? lenMagnitudes)%nat then j :: binsRead lenMagnitudes (S j) k' else []
  end.

(** The bins of band i among M magnitude bins, for a display of nb bands. *)
Definition bandBins (nb M i : nat) : list nat :=
  binsRead M (i * binsPerBandOf nb M) (binsPerBandOf nb M).

(** The bands, of nb, that read bin j. *)
Definition bandsOfBin (nb M j : nat) : list nat :=
  filter (fun i => existsb (Nat.eqb j) (bandBins nb M i)) (seq 0 nb).

(** (bandSum / float64(binCount)) / 100.0, negative values raised to 0 *)
Definition normalize (bandSum : float64) (binCount : Z) : float64 :=
  let normalizedMag := F64.div (F64.div bandSum (F64.of_int binCount)) (Fin 100) in
  if F64.ltb normalizedMag F64.zero then F64.zero else normalizedMag.

(** The body of the loop over the bands. *)
Definition bandBody (nb : nat) (magnitudes : list float64)
           (spectrum : list float64) (i : nat) : outcome (list float64) :=
  let binsPerBand := binsPerBandOf nb (length magnitudes) in
  r <- bandLoop magnitudes (i * binsPerBand) binsPerBand F64.zero 0%Z ;;
  let '(bandSum, binCount) := r in
  if (binCount >? 0)%Z then assign spectrum i (normalize bandSum binCount)
  else Ret spectrum.

(** What the inner loop adds up over the bins it reads. *)
Definition bandSumOf (magnitudes : list float64) (bins : list nat) (bandSum : float64)
  : float64 :=
  fold_left (fun sum j => F64.add sum (decibels (nth j magnitudes F64.zero)))
            bins bandSum.

(** The value of band i once the loop over the bands is done: the reset
    value 0 for a band that reads no bin. *)
Definition bandValue (nb : nat) (magnitudes : list float64) (i : nat) : float64 :=
  match bandBins nb (length magnitudes) i with
  | [] => F64.zero
  | bins => normalize (bandSumOf magnitudes bins F64.zero) (Z.of_nat (length bins))
  end.

(** Reset of the spectrum, then the loop over the bands. *)
Definition mapBands (nb : nat) (magnitudes spectrum : list float64)
  : outcome (list float64) :=
  let spectrum := map (fun _ => F64.zero) spectrum in
  forEach (bandBody nb magnitudes) (seq 0 nb) spectrum.

(** a.spectrum[i] = (a.spectrum[i] + a.spectrum[i-1]*0.5) / 1.5, for i > 0 *)
Definition blend (x neighbor : float64) : float64 :=
  F64.div (F64.add x (F64.mul neighbor (Fin (1 / 2)))) (Fin (3 / 2)).

Definition smoothBody (spectrum : list float64) (i : nat) : outcome (list float64) :=
  if (0 <? i)%nat then
    x <- index spectrum i ;;
    neighbor <- index spectrum (i - 1) ;;
    assign spectrum i (blend x neighbor)
  else Ret spectrum.

(** for i := range a.spectrum { ... } *)
Definition smooth (spectrum : list float64) : outcome (list float64) :=
  forEach smoothBody (seq 0 (length spectrum)) spectrum.

Section Analyzer.

Variable U : Type.
Variable upstream : upstream_fn U.
Variable FFT : list complex128 -> list complex128.

Record analyzerStreamer : Type := mkAnalyzer {
  streamer : U;
  buffer : list frame;
  spectrum : list float64
}.

(** processSize := n, lowered to bufferSize *)
Definition processSizeOf (n : Z) : Z :=
  if (n >? bufferSize)%Z then bufferSize else n.

(** func (a *analyzerStreamer) Stream(samples [][2]float64) (n int, ok bool).
    samples[:processSize] and the reads samples[i], i < processSize, panic
    when processSize is negative or exceeds len(samples). *)
Definition Stream (a : analyzerStreamer) (samples : list frame)
  : outcome (analyzerStreamer * list frame * Z * bool) :=
  let '(samples, n, ok, u) := upstream (streamer a) samples in
  let a := mkAnalyzer u (buffer a) (spectrum a) in
  if negb ok then Ret (a, samples, n, ok)
  else
    let processSize := processSizeOf n in
    if ((processSize <? 0) || (Z.of_nat (length samples) <? processSize))%Z
    then Panic
    else
      let block := firstn (Z.to_nat processSize) samples in
      let a := mkAnalyzer (streamer a) (copy (buffer a) block) (spectrum a) in
      let fftResult := FFT (complexSamplesOf block) in
      let magnitudes := magnitudesOf fftResult in
      if (length magnitudes =? 0)%nat then Ret (a, samples, n, ok)
      else
        s <- mapBands numFrequencyBands magnitudes (spectrum a) ;;
        s <- smooth s ;;
        Ret (mkAnalyzer (streamer a) (buffer a) s, samples, n, ok).

(** func (a *analyzerStreamer) getSpectrum() []float64: a copy *)
Definition getSpectrum (a : analyzerStreamer) : list float64 :=
  copy (map (fun _ => F64.zero) (spectrum a)) (spectrum a).

(** The analyzer that playAndAnalyze builds around a decoded stream. *)
Definition newAnalyzer (s : U) : analyzerStreamer :=
  mkAnalyzer s (repeat (F64.zero, F64.zero) (Z.to_nat bufferSize))
             (repeat F64.zero numFrequencyBands).

End Analyzer.

End Spectrum.

(** * main and playAndAnalyze: the playlist *)

Module Driver.

(** What a run does, as far as the playlist is concerned: the song name sent
    to the UI, a track played to its end (speaker.Play, then the wait for
    the done signal), a line written by log.Printf, the final tea.Quit. *)
Inductive event : Type :=
| Send (currentSong : string)
| Played (file : string)
| Logged (message : string)
| Quit.

Section Run.

(** The file system and the decoder: os.Open and mp3.Decode either give a
    handle or an error message. *)
Variables File Decoded : Type.
Variable os_Open : string -> File + string.
Variable mp3_Decode : File -> Decoded + string.
Variable filepath_Base : string -> string.

(** func playAndAnalyze(file string, p *tea.Program) error: the error, if
    any, and what happened. *)
Definition playAndAnalyze (file : string) : option string * list event :=
  match os_Open file with
  | inr err => (Some ("error opening file: " ++ err)%string, [])
  | inl f =>
      match mp3_Decode f with
      | inr err => (Some ("error decoding file: " ++ err)%string, [])
      | inl _ => (None, [Played file])
      end
  end.

(** The body of the loop of main over the files. *)
Definition playOne (file : string) : list event :=
  let '(err, events) := playAndAnalyze file in
  Send (filepath_Base file) :: events ++
  match err with
  | Some e => [Logged ("Error playing " ++ file ++ ": " ++ e)%string]
  | None => []
  end.

(** main, from the scanned list of files on. *)
Definition run (files : list string) : list event :=
  flat_map playOne files ++ [Quit].

(** The tracks a run played, in order. *)
Definition played (events : list event) : list string :=
  flat_map (fun e => match e with Played f => [f] | _ => [] end) events.

(** The number of lines a run logged. *)
Definition logged (events : list event) : nat :=
  length (filter (fun e => match e with Logged _ => true | _ => false end) events).

(** A file that opens and decodes. *)
Definition playable (file : string) : bool :=
  match os_Open file with
  | inl f => match mp3_Decode f with inl _ => true | inr _ => false end
  | inr _ => false
  end.

End Run.

End Driver.

(** * Two streamers *)

(** A decoded track: the frames still to deliver.  A call writes as many of
    them as fit in the buffer and reports how many; ok is false once nothing
    was written. *)
Definition tape : upstream_fn (list frame) :=
  fun pending samples =>
    let n := Nat.min (length samples) (length pending) in
    ((copy samples (firstn n pending), Z.of_nat n, (0 <? n)%nat), skipn n pending).

(** beep.Silence(-1): fills the buffer with zeros, forever. *)
Definition silence : upstream_fn unit :=
  fun u samples =>
    ((map (fun _ => (F64.zero, F64.zero)) samples, Z.of_nat (length samples), true), u).

(** * Notions used in the statements *)

(** What a call of Stream hands to its caller: the buffer and (n, ok). *)
Definition forwarded {A : Type} (r : A * list frame * Z * bool)
  : list frame * Z * bool :=
  let '(_, samples, n, ok) := r in (samples, n, ok).

(** The analyzer after a call of Tui.Stream. *)
Definition analyzerAfter {A : Type} (r : A * list frame * Z * bool) : A :=
  let '(a, _, _, _) := r in a.

(** The sum of the squares of real samples. *)
Definition sumSq (xs : list R) : R := fold_right (fun x acc => x * x + acc)%R 0%R xs.

(** complex(x, 0) for a finite sample x *)
Definition lift (x : R) : complex128 := complex (Fin x) (Fin 0).

(** The real and the imaginary part of bin k of the transform of N real
    samples, given as the list of the pairs (n, x_n). *)
Definition dftRe (N k : nat) (l : list (nat * R)) : R :=
  fold_right (fun nx acc => snd nx * cos (angle N k (fst nx)) + acc)%R 0%R l.
Definition dftIm (N k : nat) (l : list (nat * R)) : R :=
  fold_right (fun nx acc => - (snd nx * sin (angle N k (fst nx))) + acc)%R 0%R l.

(** The magnitude of bin k of the transform of the real samples xs. *)
Definition binMagnitude (xs : list R) (k : nat) : R :=
  let re := dftRe (length xs) k (combine (seq 0 (length xs)) xs) in
  let im := dftIm (length xs) k (combine (seq 0 (length xs)) xs) in
  sqrt (re * re + im * im).

(** A float64 that is a real number, at least 0. *)
Definition nonnegative (x : float64) : Prop := exists r, x = Fin r /\ (0 <= r)%R.

(** 20 * log10(0 + 1e-6), what the band loop adds for a bin of magnitude 0. *)
Definition quietDecibels : R := (20 * (ln (0 + 1 / 1000000) / ln 10))%R.

(** * Blocks used in the examples *)

(** A frame with the same value on both channels. *)
Definition mono (x : R) : frame := (Fin x, Fin x).

(** A buffer of four frames as an earlier pull left it, and the last two
    frames of a track, both silent. *)
Definition staleBuffer : list frame := [mono 1; mono (-1); mono 1; mono (-1)].
Definition lastFrames : list frame := [mono 0; mono 0].

(** A track of two blocks of four frames, the second one silent. *)
Definition twoBlocks : list frame :=
  [mono 0; mono 0; mono 1; mono (-1); mono 0; mono 0; mono 0; mono 0].

(** A block of two frames at full scale, and the value of band 0 that the
    spectrum analyzer computes for it: the only magnitude bin holds 2. *)
Definition loudFrames : list frame := [mono 1; mono 1].
Definition loudBand : R := (20 * (ln (2 + 1 / 1000000) / ln 10) / 100)%R.

(** * strings.ToLower, strings.HasSuffix, strings.Repeat *)

Module GoStrings.

(** unicode.ToLower on a byte of ASCII: 'A'..'Z' go to 'a'..'z'. *)
Definition lower (c : ascii) : ascii :=
  let n := nat_of_ascii c in
  if ((65 <=? n) && (n <=? 90))%nat then ascii_of_nat (n + 32) else c.

(** strings.ToLower, byte by byte.  On a string that is not ASCII Go works
    rune by rune; no rune other than an upper-case ASCII letter becomes one
    of the bytes of ".mp3" or ".wav", so the extension tests below read the
    same. *)
Fixpoint ToLower (s : string) : string :=
  match s with
  | EmptyString => EmptyString
  | String c s' => String (lower c) (ToLower s')
  end.

(** strings.HasSuffix:
    len(s) >= len(suffix) && s[len(s)-len(suffix):] == suffix *)
Definition HasSuffix (s suffix : string) : bool :=
  (String.length suffix <=? String.length s)%nat &&
  String.eqb (substring (String.length s - String.length suffix)
                        (String.length suffix) s) suffix.

(** count copies of s, one after the other *)
Fixpoint copies (s : string) (count : nat) : string :=
  match count with
  | O => EmptyString
  | S count' => (s ++ copies s count')%string
  end.

(** strings.Repeat: panics on a negative count *)
Definition Repeat (s : string) (count : Z) : outcome string :=
  if (count <? 0)%Z then Panic else Ret (copies s (Z.to_nat count)).

End GoStrings.

(** * int(x) for a float64 x *)

(** Truncation toward zero of a real number. *)
Definition trunc (r : R) : Z :=
  if F64.Rlt_b r 0 then (- Int_part (- r))%Z else Int_part r.

(** The conversion of Go: the fraction is dropped; for NaN, an infinity or
    a value that does not fit in an int the result depends on the
    implementation, here [indefinite]. *)
Definition to_int (indefinite : float64 -> Z) (x : float64) : Z :=
  match x with
  | Fin r =>
      if ((- 2 ^ 63 <=? trunc r) && (trunc r <? 2 ^ 63))%Z then trunc r
      else indefinite x
  | _ => indefinite x
  end.

(** * scanMusicDir *)

Module Scan.

(** os.FileInfo, as far as it is used: Name() and IsDir(). *)
Record FileInfo : Type := mkInfo { Name : string; IsDir : bool }.

(** One call that filepath.Walk makes to its function argument: a file or
    directory with its info, or a path at which Walk met an error. *)
Inductive visit : Type :=
| Entry (path : string) (info : FileInfo)
| Failure (path : string) (err : string).

(** !info.IsDir() && (HasSuffix(ToLower(info.Name()), ".mp3") ||
                      HasSuffix(ToLower(info.Name()), ".wav")) *)
Definition isMusic (info : FileInfo) : bool :=
  negb (IsDir info) &&
  (GoStrings.HasSuffix (GoStrings.ToLower (Name info)) ".mp3" ||
   GoStrings.HasSuffix (GoStrings.ToLower (Name info)) ".wav").

(** The function literal passed to filepath.Walk; [files] is the variable
    it captures.  The result is the returned error. *)
Definition walkFn (files : list string) (v : visit) : list string * option string :=
  match v with
  | Failure _ err => (files, Some err)
  | Entry path info =>
      if isMusic info then (files ++ [path], None) else (files, None)
  end.

(** filepath.Walk, over the visits that the tree under the root gives rise
    to: it stops at the first error that the function returns, and returns
    it. *)
Fixpoint Walk (fn : list string -> visit -> list string * option string)
         (visits : list visit) (files : list string) : list string * option string :=
  match visits with
  | [] => (files, None)
  | v :: visits' =>
      match fn files v with
      | (files', Some err) => (files', Some err)
      | (files', None) => Walk fn visits' files'
      end
  end.

(** func scanMusicDir(dir string) ([]string, error) *)
Definition scanMusicDir (visits : list visit) : list string * option string :=
  Walk walkFn visits [].

(** The visits before the first failure, and the error of that failure. *)
Fixpoint beforeFailure (visits : list visit) : list visit :=
  match visits with
  | Entry path info :: visits' => Entry path info :: beforeFailure visits'
  | _ => []
  end.

Fixpoint firstFailure (visits : list visit) : option string :=
  match visits with
  | [] => None
  | Entry _ _ :: visits' => firstFailure visits'
  | Failure _ err :: _ => Some err
  end.

(** The paths of the music files among some visits. *)
Definition musicPaths (visits : list visit) : list string :=
  flat_map (fun v => match v with
                     | Entry path info => if isMusic info then [path] else []
                     | Failure _ _ => []
                     end) visits.

End Scan.

(** * The spectrum program: main and playAndAnalyze *)

Module Player.

(** What a run does: a track played to its end, resampled to 44100 Hz or
    not; a line written by log.Printf; the two-second sleep; the final
    tea.Quit; os.Exit(0). *)
Inductive event : Type :=
| Played (file : string) (resampled : bool)
| Logged (message : string)
| Slept
| Quit
| Exit.

Section Run.

Variables File Decoded : Type.
Variable os_Open : string -> File + string.
(** mp3.Decode: the streamer and format.SampleRate, or an error. *)
Variable mp3_Decode : File -> (Decoded * Z) + string.

(** func playAndAnalyze(file string, p *tea.Program) error *)
Definition playAndAnalyze (file : string) : option string * list event :=
  match os_Open file with
  | inr err => (Some ("error opening file: " ++ err)%string, [])
  | inl f =>
      if GoStrings.HasSuffix (GoStrings.ToLower file) ".mp3" then
        match mp3_Decode f with
        | inr err => (Some ("error decoding file: " ++ err)%string, [])
        | inl (_, rate) => (None, [Played file (negb (rate =? sampleRate)%Z)])
        end
      else if GoStrings.HasSuffix (GoStrings.ToLower file) ".wav" then
        (Some "WAV decoding not implemented in this example. Please use MP3 files."%string,
         [])
      else (Some ("unsupported file format for " ++ file)%string, [])
  end.

(** The body of the loop of main over the files. *)
Definition playOne (file : string) : list event :=
  let '(err, events) := playAndAnalyze file in
  events ++
  match err with
  | Some e => [Logged ("Error playing " ++ file ++ ": " ++ e)%string]
  | None => []
  end.

(** main, from the scanned list of files on. *)
Definition run (files : list string) : list event :=
  match files with
  | [] =>
      [Logged "No music files found in './music'. Please add some MP3/WAV files.";
       Slept; Quit; Exit]
  | _ => flat_map playOne files ++ [Quit]
  end.

(** The tracks a run played, in order. *)
Definition played (events : list event) : list string :=
  flat_map (fun e => match e with Played f _ => [f] | _ => [] end) events.

(** A file that opens, is named .mp3 and decodes. *)
Definition playable (file : string) : bool :=
  match os_Open file with
  | inl f =>
      GoStrings.HasSuffix (GoStrings.ToLower file) ".mp3" &&
      match mp3_Decode f with inl _ => true | inr _ => false end
  | inr _ => false
  end.

End Run.

End Player.

(** * What the programs draw *)

(** The full block U+2588, three bytes in UTF-8. *)
Definition fullBlock : string :=
  String (ascii_of_nat 226) (String (ascii_of_nat 150) (String (ascii_of_nat 136) "")).

(** A line feed. *)
Definition newline : string := String (ascii_of_nat 10) "".

Module Display.

Section Conversion.

Variable indefinite : float64 -> Z.

(** main.go, View: the amplitude bar, before lipgloss styles it.
<<
    maxBarHeight := 20
    barHeight := int(m.rms * float64(maxBarHeight))
    if barHeight > maxBarHeight { barHeight = maxBarHeight }
    bar := strings.Repeat("█\n", barHeight) + strings.Repeat(" \n", maxBarHeight-barHeight)
>>  *)
Definition barHeightOf (maxBarHeight : Z) (rms : float64) : Z :=
  let barHeight := to_int indefinite (F64.mul rms (F64.of_int maxBarHeight)) in
  if (barHeight >? maxBarHeight)%Z then maxBarHeight else barHeight.

Definition amplitudeBar (rms : float64) : outcome string :=
  let maxBarHeight := 20%Z in
  let barHeight := barHeightOf maxBarHeight rms in
  filled <- GoStrings.Repeat (fullBlock ++ newline) barHeight ;;
  blank <- GoStrings.Repeat (" " ++ newline) (maxBarHeight - barHeight) ;;
  Ret (filled ++ blank)%string.

(** printAnalysis of the command-line program: the line of the bar.
<<
    barLength := int(rms * 50)
    if barLength > 50 { barLength = 50 }
    fmt.Print("Amplitude: [")
    for i := 0; i < 50; i++ {
        if i < barLength { fmt.Print("=") } else { fmt.Print(" ") }
    }
    fmt.Println("]")
>>  *)
Definition barCells (barLength : Z) : list string :=
  map (fun i => if (Z.of_nat i <? barLength)%Z then "=" else " ")%string (seq 0 50).

Definition amplitudeLine (rms : float64) : string :=
  let barLength := to_int indefinite (F64.mul rms (Fin 50)) in
  let barLength := if (barLength >? 50)%Z then 50%Z else barLength in
  ("Amplitude: [" ++ String.concat "" (barCells barLength) ++ "]" ++ newline)%string.

(** The spectrum program, View: the rows of bars, before lipgloss styles
    them.
<<
    for h := maxBarHeight; h >= 0; h-- {
        for _, bandMagnitude := range m.spectrum {
            barHeight := int(bandMagnitude * float64(maxBarHeight))
            if barHeight < 0 { barHeight = 0 }
            if barHeight > maxBarHeight { barHeight = maxBarHeight }
            if barHeight >= h { "█" } else { " " }
            " "
        }
        "\n"
    }
>>  *)
Definition maxBarHeight : Z := 15.

Definition bandHeight (bandMagnitude : float64) : Z :=
  let barHeight := to_int indefinite (F64.mul bandMagnitude (F64.of_int maxBarHeight)) in
  let barHeight := if (barHeight <? 0)%Z then 0%Z else barHeight in
  if (barHeight >? maxBarHeight)%Z then maxBarHeight else barHeight.

Definition bandCell (h : Z) (bandMagnitude : float64) : string :=
  ((if (bandHeight bandMagnitude >=? h)%Z then fullBlock else " ") ++ " ")%string.

Definition barsRow (spectrum : list float64) (h : Z) : string :=
  (String.concat "" (map (bandCell h) spectrum) ++ newline)%string.

(** The values of h, from maxBarHeight down to 0. *)
Definition rowHeights : list Z :=
  map (fun k => (maxBarHeight - Z.of_nat k)%Z) (seq 0 (Z.to_nat maxBarHeight + 1)).

Definition bars (spectrum : list float64) : string :=
  String.concat "" (map (barsRow spectrum) rowHeights).

End Conversion.

(** main.go: the model of the terminal UI and its Update. *)
Record model : Type := mkModel {
  currentSong : string;
  rms : float64;
  freq : float64
}.

Inductive Msg : Type :=
| KeyMsg (key : string)
| updateMsg (rms freq : float64) (currentSong : string)
| otherMsg.

Inductive Cmd : Type :=
| NoCmd
| QuitCmd.

Definition Update (m : model) (msg : Msg) : model * Cmd :=
  match msg with
  | KeyMsg key =>
      if (String.eqb key "ctrl+c" || String.eqb key "q")%bool then (m, QuitCmd)
      else (m, NoCmd)
  | updateMsg r f song => (mkModel song r f, NoCmd)
  | otherMsg => (m, NoCmd)
  end.

(** The model after the messages of a list, one after the other. *)
Definition feed (m : model) (msgs : list Msg) : model :=
  fold_left (fun m msg => fst (Update m msg)) msgs m.

Definition isUpdate (msg : Msg) : bool :=
  match msg with updateMsg _ _ _ => true | _ => false end.

(** updateMsg{currentSong: filepath.Base(file)}, which main sends before a
    track: the fields rms and freq are left at their zero value. *)
Definition trackStart (song : string) : Msg := updateMsg F64.zero F64.zero song.

End Display.

(** * main.go in binary64 *)

Module Tui64.

(** float64, [2]float64 and complex128 on IEEE 754 binary64. *)
Definition frame : Type := (PrimFloat.float * PrimFloat.float)%type.
Definition complex128 : Type := (PrimFloat.float * PrimFloat.float)%type.

(** sample[0] *)
Definition left (sample : frame) : PrimFloat.float := fst sample.

(** float64(i) for an int i, 0 <= i < 2^63 *)
Definition of_int (z : Z) : PrimFloat.float :=
  PrimFloat.of_uint63 (Uint63.of_Z z).


(** A binary64 value that is NaN or has its sign bit clear. *)
Definition signClear (x : SpecFloat.spec_float) : Prop :=
  match x with
  | SpecFloat.S754_zero s | SpecFloat.S754_infinity s | SpecFloat.S754_finite s _ _ =>
      s = false
  | SpecFloat.S754_nan => True
  end.


(** The magnitude spectrum. *)
Definition magnitude (c : complex128) : PrimFloat.float :=
  PrimFloat.sqrt (PrimFloat.add (PrimFloat.mul (fst c) (fst c))
                                (PrimFloat.mul (snd c) (snd c))).

Definition magnitudesOf (fftResult : list complex128) : list PrimFloat.float :=
  map magnitude (firstn (length fftResult / 2) fftResult).

Definition complexSamplesOf (block : list frame) : list complex128 :=
  map (fun sample => (left sample, PrimFloat.zero)) block.

Section Analyzer.

Variable U : Type.
Variable upstream : U -> list frame -> (list frame * Z * bool) * U.
Variable FFT : list complex128 -> list complex128.

Record analyzerStreamer : Type := mkAnalyzer {
  streamer : U;
  buffer : list frame;
  rms : PrimFloat.float;
  freq : PrimFloat.float
}.

(** sum += sample[0] * sample[0], over samples *)
Definition sumSquares (samples : list frame) : PrimFloat.float :=
  fold_left (fun sum sample =>
               PrimFloat.add sum (PrimFloat.mul (left sample) (left sample)))
            samples PrimFloat.zero.

(** math.Sqrt(sum / float64(len(samples))) *)
Definition rmsOf (samples : list frame) : PrimFloat.float :=
  PrimFloat.sqrt (PrimFloat.div (sumSquares samples)
                                (of_int (Z.of_nat (length samples)))).

Definition maxStep (st : PrimFloat.float * Z * Z) (mag : PrimFloat.float)
  : PrimFloat.float * Z * Z :=
  let '(maxMag, maxIndex, i) := st in
  if PrimFloat.ltb maxMag mag then (mag, i, (i + 1)%Z)
  else (maxMag, maxIndex, (i + 1)%Z).

Definition maxIndexOf (magnitudes : list PrimFloat.float) : Z :=
  snd (fst (fold_left maxStep magnitudes (PrimFloat.zero, 0%Z, 0%Z))).

(** float64(maxIndex) * sampleRate / float64(len(samples)) *)
Definition freqOf (samples : list frame) : PrimFloat.float :=
  let fftResult := FFT (complexSamplesOf samples) in
  let magnitudes := magnitudesOf fftResult in
  let maxIndex := maxIndexOf magnitudes in
  PrimFloat.div (PrimFloat.mul (of_int maxIndex) (of_int sampleRate))
                (of_int (Z.of_nat (length samples))).

(** func (a *analyzerStreamer) Stream(samples [][2]float64) (n int, ok bool) *)
Definition Stream (a : analyzerStreamer) (samples : list frame)
  : analyzerStreamer * list frame * Z * bool :=
  let '(samples, n, ok, u) := upstream (streamer a) samples in
  let a := mkAnalyzer u (buffer a) (rms a) (freq a) in
  if negb ok then (a, samples, n, ok)
  else
    let a := mkAnalyzer (streamer a) (copy (buffer a) samples) (rms a) (freq a) in
    let a := mkAnalyzer (streamer a) (buffer a) (rmsOf samples) (freq a) in
    let a := mkAnalyzer (streamer a) (buffer a) (rms a) (freqOf samples) in
    (a, samples, n, ok).

End Analyzer.

(** A streamer that delivers the frames of a track, as [tape] does. *)
Definition tape : list frame -> list frame -> (list frame * Z * bool) * list frame :=
  fun pending samples =>
    let n := Nat.min (length samples) (length pending) in
    ((copy samples (firstn n pending), Z.of_nat n, (0 <? n)%nat), skipn n pending).


(** What a call of Stream hands back to its caller, and the analyzer after
    the call. *)
Definition forwarded {A : Type} (r : A * list frame * Z * bool)
  : list frame * Z * bool :=
  let '(_, samples, n, ok) := r in (samples, n, ok).

Definition analyzerAfter {A : Type} (r : A * list frame * Z * bool) : A :=
  let '(a, _, _, _) := r in a.



End Tui64.

(** * Facts about slices *)

Section Slices.

Variable A : Type.
Implicit Types (s : list A) (i j : nat) (v d : A).

Lemma length_store s i v : length (store s i v) = length s.
Proof.
  revert i; induction s as [|x s IH]; intros [|i]; simpl; auto.
Qed.

Lemma nth_store_same s i v d : i < length s -> nth i (store s i v) d = v.
Proof.
  revert i; induction s as [|x s IH]; intros [|i]; simpl; intros H;
    try lia; auto.
  apply IH; lia.
Qed.

Lemma nth_store_other s i j v d : i <> j -> nth j (store s i v) d = nth j s d.
Proof.
  revert i j; induction s as [|x s IH]; intros [|i] [|j]; simpl; intros H;
    try congruence; auto.
Qed.

Lemma index_in_range s i d : i < length s -> index s i = Ret (nth i s d).
Proof.
  intros H. unfold index.
  destruct (nth_error s i) as [v|] eqn:E.
  - now rewrite (nth_error_nth _ _ d E).
  - apply nth_error_None in E. lia.
Qed.

Lemma assign_in_range s i v : i < length s -> assign s i v = Ret (store s i v).
Proof.
  intros H. unfold assign.
  destruct (Nat.ltb_spec i (length s)); [reflexivity | lia].
Qed.

Lemma length_copy (dst src : list A) : length (copy dst src) = length dst.
Proof.
  unfold copy. rewrite length_app, length_firstn, length_skipn. lia.
Qed.

End Slices.

(** * The loops of the spectrum analyzer *)

Section BandLoops.

Import Spectrum.

Variable nb : nat.
Variable magnitudes : list float64.

Lemma bandLoop_reads k : forall j bandSum binCount,
  bandLoop magnitudes j k bandSum binCount =
  Ret (bandSumOf magnitudes (binsRead (length magnitudes) j k) bandSum,
       (binCount + Z.of_nat (length (binsRead (length magnitudes) j k)))%Z).
Proof.
  induction k as [|k IH]; intros j bandSum binCount; simpl.
  - now rewrite Z.add_0_r.
  - destruct (Nat.ltb_spec j (length magnitudes)) as [Hj|Hj].
    + rewrite (index_in_range _ F64.zero Hj). simpl bind.
      rewrite IH. simpl length. unfold bandSumOf. simpl fold_left.
      do 2 f_equal. lia.
    + simpl. now rewrite Z.add_0_r.
Qed.

Lemma bandBody_value spectrum i :
  bandBody nb magnitudes spectrum i =
  match bandBins nb (length magnitudes) i with
  | [] => Ret spectrum
  | _ => assign spectrum i (bandValue nb magnitudes i)
  end.
Proof.
  unfold bandBody, bandValue. rewrite bandLoop_reads. simpl bind.
  fold (bandBins nb (length magnitudes) i).
  destruct (bandBins nb (length magnitudes) i) as [|j bins]; [reflexivity|].
  change (0 + Z.of_nat (length (j :: bins)))%Z with (Z.of_nat (length (j :: bins))).
  destruct (Z.gtb_spec (Z.of_nat (length (j :: bins))) 0) as [H|H];
    [reflexivity | simpl length in H; lia].
Qed.

Lemma bandLoop_range k : forall a t,
  a + k <= length t ->
  exists t',
    forEach (bandBody nb magnitudes) (seq a k) t = Ret t' /\
    length t' = length t /\
    (forall i, i < a \/ a + k <= i -> nth i t' F64.zero = nth i t F64.zero) /\
    (forall i, a <= i < a + k ->
       nth i t' F64.zero =
       match bandBins nb (length magnitudes) i with
       | [] => nth i t F64.zero
       | _ => bandValue nb magnitudes i
       end).
Proof.
  induction k as [|k IH]; intros a t Hlen.
  - exists t. simpl. repeat split; auto. intros i Hi; lia.
  - simpl seq. simpl forEach. rewrite bandBody_value.
    assert (Hstep : exists t1,
      match bandBins nb (length magnitudes) a with
      | [] => Ret t
      | _ => assign t a (bandValue nb magnitudes a)
      end = Ret t1 /\ length t1 = length t /\
      (forall i, i <> a -> nth i t1 F64.zero = nth i t F64.zero) /\
      nth a t1 F64.zero =
        match bandBins nb (length magnitudes) a with
        | [] => nth a t F64.zero
        | _ => bandValue nb magnitudes a
        end).
    { destruct (bandBins nb (length magnitudes) a) as [|j bins].
      - exists t; auto.
      - exists (store t a (bandValue nb magnitudes a)).
        rewrite assign_in_range by lia. rewrite length_store.
        repeat split; auto.
        + intros i Hi. apply nth_store_other; auto.
        + apply nth_store_same; lia. }
    destruct Hstep as (t1 & -> & Hl1 & Hother & Ha). simpl bind.
    destruct (IH (S a) t1) as (t' & Hrun & Hl' & Hout & Hin); [lia|].
    exists t'. repeat split; [exact Hrun | lia | |].
    + intros i Hi. rewrite Hout by lia. apply Hother; lia.
    + intros i Hi. destruct (Nat.eq_dec i a) as [->|Hne].
      * rewrite Hout by lia. exact Ha.
      * rewrite Hin by lia.
        destruct (bandBins nb (length magnitudes) i); auto.
Qed.

Lemma nth_reset (spectrum : list float64) i :
  nth i (map (fun _ => F64.zero) spectrum) F64.zero = F64.zero.
Proof.
  revert i; induction spectrum; intros [|i]; simpl; auto.
Qed.

Lemma bandValue_no_bin i :
  bandBins nb (length magnitudes) i = [] -> bandValue nb magnitudes i = F64.zero.
Proof. unfold bandValue. now intros ->. Qed.

Lemma mapBands_values spectrum :
  nb <= length spectrum ->
  exists s,
    mapBands nb magnitudes spectrum = Ret s /\
    length s = length spectrum /\
    (forall i, nth i s F64.zero =
               if (i <? nb)%nat then bandValue nb magnitudes i else F64.zero).
Proof.
  intros Hlen. unfold mapBands.
  destruct (bandLoop_range nb 0 (map (fun _ => F64.zero) spectrum))
    as (s & Hrun & Hl & Hout & Hin); [rewrite length_map; lia|].
  exists s. rewrite length_map in Hl. repeat split; auto.
  intros i. destruct (Nat.ltb_spec i nb) as [Hi|Hi].
  - rewrite Hin by lia. rewrite nth_reset.
    destruct (bandBins nb (length magnitudes) i) eqn:E; auto.
    now rewrite bandValue_no_bin.
  - rewrite Hout by lia. apply nth_reset.
Qed.

End BandLoops.

Section SmoothLoop.

Import Spectrum.

Lemma smooth_range k : forall a t,
  a + k = length t ->
  exists t',
    forEach smoothBody (seq a k) t = Ret t' /\
    length t' = length t /\
    (forall i, i < a \/ i = 0 -> nth i t' F64.zero = nth i t F64.zero) /\
    (forall i, a <= i -> 0 < i -> i < length t ->
       nth i t' F64.zero = blend (nth i t F64.zero) (nth (i - 1) t' F64.zero)).
Proof.
  induction k as [|k IH]; intros a t Hlen.
  - exists t. simpl. repeat split; auto. intros i H1 H2 H3; lia.
  - simpl seq. simpl forEach. unfold smoothBody at 1.
    destruct (Nat.ltb_spec 0 a) as [Ha|Ha].
    + rewrite (index_in_range _ F64.zero) by lia. simpl bind.
      rewrite (index_in_range _ F64.zero) by lia. simpl bind.
      rewrite assign_in_range by lia. simpl bind.
      set (t1 := store t a (blend (nth a t F64.zero) (nth (a - 1) t F64.zero))).
      assert (Hl1 : length t1 = length t) by apply length_store.
      destruct (IH (S a) t1) as (t' & Hrun & Hl' & Hout & Hin); [lia|].
      exists t'. repeat split; [exact Hrun | lia | |].
      * intros i Hi. rewrite Hout by lia. apply nth_store_other. lia.
      * intros i H1 H2 H3. destruct (Nat.eq_dec i a) as [->|Hne].
        -- rewrite !Hout by lia. unfold t1.
           rewrite nth_store_same by lia.
           now rewrite nth_store_other by lia.
        -- rewrite Hin by lia. f_equal. apply nth_store_other. lia.
    + simpl bind. assert (a = 0) by lia; subst a.
      destruct (IH 1 t) as (t' & Hrun & Hl' & Hout & Hin); [lia|].
      exists t'. repeat split; auto; intros i; intros;
        first [apply Hout; lia | apply Hin; lia].
Qed.

(** The smoothing loop never panics; band 0 keeps its value and every other
    band is blended with the value the loop has just left in the band to its
    left. *)
Lemma smooth_values (spectrum : list float64) :
  exists s,
    smooth spectrum = Ret s /\
    length s = length spectrum /\
    nth 0 s F64.zero = nth 0 spectrum F64.zero /\
    (forall i, 0 < i -> i < length spectrum ->
       nth i s F64.zero = blend (nth i spectrum F64.zero) (nth (i - 1) s F64.zero)).
Proof.
  destruct (smooth_range (length spectrum) 0 spectrum) as (s & Hrun & Hl & Hout & Hin);
    [reflexivity|].
  exists s. repeat split; auto.
  intros i H1 H2. apply Hin; lia.
Qed.

End SmoothLoop.

(** * The analyzer as a decorator of the upstream streamer *)

Section Decorator.

Variable U : Type.
Variable upstream : upstream_fn U.
Variable FFT : list complex128 -> list complex128.

Lemma spectrum_Stream_drained (b : Spectrum.analyzerStreamer U) samples samples' n u' :
  upstream (Spectrum.streamer b) samples = (samples', n, false, u') ->
  Spectrum.Stream upstream FFT b samples =
  Ret (Spectrum.mkAnalyzer u' (Spectrum.buffer b) (Spectrum.spectrum b), samples', n, false).
Proof.
  intros H. unfold Spectrum.Stream. now rewrite H.
Qed.

Lemma spectrum_Stream_forwards (b : Spectrum.analyzerStreamer U) samples r :
  Spectrum.Stream upstream FFT b samples = Ret r ->
  forwarded r = fst (upstream (Spectrum.streamer b) samples).
Proof.
  unfold Spectrum.Stream.
  destruct (upstream (Spectrum.streamer b) samples) as [[[samples' n] ok] u'].
  simpl fst. destruct ok; simpl negb; cbv iota.
  - destruct (_ || _)%bool; [discriminate|].
    destruct (length _ =? 0)%nat; [intros [= <-]; reflexivity|].
    destruct (Spectrum.mapBands _ _ _) as [s|]; [simpl bind|discriminate].
    destruct (Spectrum.smooth s) as [s'|]; [simpl bind|discriminate].
    intros [= <-]; reflexivity.
  - intros [= <-]; reflexivity.
Qed.

Lemma spectrum_Stream_returns (b : Spectrum.analyzerStreamer U) samples samples' n ok u' :
  upstream (Spectrum.streamer b) samples = (samples', n, ok, u') ->
  (0 <= n <= Z.of_nat (length samples'))%Z ->
  Spectrum.numFrequencyBands <= length (Spectrum.spectrum b) ->
  exists b', Spectrum.Stream upstream FFT b samples = Ret (b', samples', n, ok).
Proof.
  intros H Hn Hb. unfold Spectrum.Stream. rewrite H.
  destruct ok; simpl negb; cbv iota; [|eexists; reflexivity].
  assert (Hp : (0 <= Spectrum.processSizeOf n <= Z.of_nat (length samples'))%Z).
  { unfold Spectrum.processSizeOf.
    destruct (Z.gtb_spec n Spectrum.bufferSize); unfold Spectrum.bufferSize in *; lia. }
  destruct (Z.ltb_spec (Spectrum.processSizeOf n) 0); [lia|].
  destruct (Z.ltb_spec (Z.of_nat (length samples')) (Spectrum.processSizeOf n)); [lia|].
  simpl orb. cbv iota.
  destruct (length _ =? 0)%nat; [eexists; reflexivity|].
  simpl Spectrum.spectrum.
  destruct (@mapBands_values Spectrum.numFrequencyBands
              (magnitudesOf (FFT (complexSamplesOf
                 (firstn (Z.to_nat (Spectrum.processSizeOf n)) samples'))))
              (Spectrum.spectrum b) Hb) as (s & -> & _).
  simpl bind.
  destruct (smooth_values s) as (s' & -> & _).
  simpl bind. eexists; reflexivity.
Qed.

(** C3. Every call of the analyzer's Stream hands to its caller exactly what
    the wrapped streamer returned for that call: the same buffer contents,
    the same number of frames and the same ok.  The amplitude and frequency
    analyzer does so on every call; the spectrum analyzer does so whenever it
    returns, and it returns whenever the wrapped streamer keeps the contract
    0 <= n <= len(samples) and the analyzer has its thirty bands. *)
Theorem Stream_forwards_upstream :
  (forall (a : Tui.analyzerStreamer U) samples,
     forwarded (Tui.Stream upstream FFT a samples) =
     fst (upstream (Tui.streamer a) samples)) /\
  (forall (b : Spectrum.analyzerStreamer U) samples r,
     Spectrum.Stream upstream FFT b samples = Ret r ->
     forwarded r = fst (upstream (Spectrum.streamer b) samples)) /\
  (forall (b : Spectrum.analyzerStreamer U) samples samples' n ok u',
     upstream (Spectrum.streamer b) samples = (samples', n, ok, u') ->
     (0 <= n <= Z.of_nat (length samples'))%Z ->
     Spectrum.numFrequencyBands <= length (Spectrum.spectrum b) ->
     exists b', Spectrum.Stream upstream FFT b samples = Ret (b', samples', n, ok)).
Proof.
  split; [|split].
  - intros a samples. unfold Tui.Stream.
    destruct (upstream (Tui.streamer a) samples) as [[[samples' n] ok] u'].
    destruct ok; reflexivity.
  - apply spectrum_Stream_forwards.
  - apply spectrum_Stream_returns.
Qed.

(** C4. When the wrapped streamer returns ok = false, Stream returns at
    once: the analyzer keeps its buffer and its published features (rms and
    freq, or the spectrum) as they were; only the wrapped streamer has moved. *)
Theorem drained_pull_skips_transform :
  (forall (a : Tui.analyzerStreamer U) samples samples' n u',
     upstream (Tui.streamer a) samples = (samples', n, false, u') ->
     Tui.Stream upstream FFT a samples =
     (Tui.mkAnalyzer u' (Tui.buffer a) (Tui.rms a) (Tui.freq a), samples', n, false)) /\
  (forall (b : Spectrum.analyzerStreamer U) samples samples' n u',
     upstream (Spectrum.streamer b) samples = (samples', n, false, u') ->
     Spectrum.Stream upstream FFT b samples =
     Ret (Spectrum.mkAnalyzer u' (Spectrum.buffer b) (Spectrum.spectrum b),
          samples', n, false)).
Proof.
  split.
  - intros a samples samples' n u' H. unfold Tui.Stream. now rewrite H.
  - apply spectrum_Stream_drained.
Qed.

End Decorator.

Lemma Stream_forwards_witness :
  exists b',
    Spectrum.Stream tape DFT (Spectrum.newAnalyzer [mono 0; mono 0])
                    [mono 1; mono 1; mono 1] =
    Ret (b', [mono 0; mono 0; mono 1], 2%Z, true).
Proof.
  apply (proj2 (proj2 (Stream_forwards_upstream tape DFT)))
    with (u' := @nil frame).
  - reflexivity.
  - simpl; lia.
  - unfold Spectrum.newAnalyzer, Spectrum.numFrequencyBands; simpl; lia.
Defined.

Lemma drained_pull_witness :
  Tui.Stream tape DFT (Tui.newAnalyzer (@nil frame)) [mono 1] =
  (Tui.mkAnalyzer (@nil frame) (repeat (F64.zero, F64.zero) Tui.bufferSize)
                  F64.zero F64.zero,
   [mono 1], 0%Z, false).
Proof.
  apply (proj1 (drained_pull_skips_transform tape DFT)). reflexivity.
Defined.

(** * The playlist *)

Section Playlist.

Variables File Decoded : Type.
Variable os_Open : string -> File + string.
Variable mp3_Decode : File -> Decoded + string.
Variable filepath_Base : string -> string.

Local Abbreviation playOne := (Driver.playOne os_Open mp3_Decode filepath_Base).
Local Abbreviation run := (Driver.run os_Open mp3_Decode filepath_Base).
Local Abbreviation playable := (Driver.playable os_Open mp3_Decode).

Lemma played_app (e1 e2 : list Driver.event) :
  Driver.played (e1 ++ e2) = Driver.played e1 ++ Driver.played e2.
Proof. unfold Driver.played. now rewrite flat_map_app. Qed.

Lemma logged_app (e1 e2 : list Driver.event) :
  Driver.logged (e1 ++ e2) = Driver.logged e1 + Driver.logged e2.
Proof. unfold Driver.logged. now rewrite filter_app, length_app. Qed.

Lemma playOne_played file :
  Driver.played (playOne file) = if playable file then [file] else [].
Proof.
  unfold Driver.playOne, Driver.playAndAnalyze, Driver.playable.
  destruct (os_Open file) as [f|e]; [destruct (mp3_Decode f) as [d|e]|]; reflexivity.
Qed.

Lemma playOne_logged file :
  Driver.logged (playOne file) = if playable file then 0 else 1.
Proof.
  unfold Driver.playOne, Driver.playAndAnalyze, Driver.playable.
  destruct (os_Open file) as [f|e]; [destruct (mp3_Decode f) as [d|e]|]; reflexivity.
Qed.

Lemma run_played (files : list string) :
  Driver.played (run files) = filter playable files.
Proof.
  unfold Driver.run. rewrite played_app, app_nil_r.
  induction files as [|f files IH]; [reflexivity|].
  simpl flat_map. rewrite played_app, playOne_played, IH. simpl filter.
  destruct (playable f); reflexivity.
Qed.

Lemma run_logged (files : list string) :
  Driver.logged (run files) = length (filter (fun f => negb (playable f)) files).
Proof.
  unfold Driver.run. rewrite logged_app, Nat.add_0_r.
  induction files as [|f files IH]; [reflexivity|].
  simpl flat_map. rewrite logged_app, playOne_logged, IH. simpl filter.
  destruct (playable f); reflexivity.
Qed.

(** C9. Whatever the playlist and whichever of its files fail to open or to
    decode, the run goes through the whole list and ends with the final
    Quit: it plays exactly the files that open and decode, in playlist
    order, and it logs one line for each file that does not. *)
Theorem failed_track_is_skipped (files : list string) :
  Driver.played (run files) = filter playable files /\
  Driver.logged (run files) = length (filter (fun f => negb (playable f)) files) /\
  last (run files) (Driver.Send "") = Driver.Quit.
Proof.
  split; [apply run_played | split; [apply run_logged |]].
  unfold Driver.run. apply last_last.
Qed.

(** The case of the spec: the second of three files does not decode. *)
Example second_of_three_fails f1 f2 f3 :
  playable f1 = true -> playable f2 = false -> playable f3 = true ->
  Driver.played (run [f1; f2; f3]) = [f1; f3] /\ Driver.logged (run [f1; f2; f3]) = 1.
Proof.
  intros H1 H2 H3. rewrite run_played, run_logged. simpl.
  now rewrite H1, H2, H3.
Qed.

End Playlist.

(** * Which bins a band reads *)

Section Bands.

Import Spectrum.

Lemma binsRead_seq M k : forall j, binsRead M j k = seq j (Nat.min k (M - j)).
Proof.
  induction k as [|k IH]; intros j; simpl; [reflexivity|].
  destruct (Nat.ltb_spec j M) as [H|H].
  - rewrite IH. replace (M - j) with (S (M - S j)) by lia. reflexivity.
  - replace (M - j) with 0 by lia. reflexivity.
Qed.

Lemma binsPerBand_pos nb M : 1 <= binsPerBandOf nb M.
Proof.
  unfold binsPerBandOf. destruct (Nat.eqb_spec (M / nb) 0); lia.
Qed.

Lemma binsPerBand_few_bins nb M : M < nb -> binsPerBandOf nb M = 1.
Proof.
  intros H. unfold binsPerBandOf. now rewrite Nat.div_small.
Qed.

Lemma binsPerBand_many_bins nb M : 0 < nb -> nb <= M -> binsPerBandOf nb M = M / nb.
Proof.
  intros H0 H. unfold binsPerBandOf.
  destruct (Nat.eqb_spec (M / nb) 0) as [E|E]; [|reflexivity].
  apply Nat.div_small_iff in E; lia.
Qed.

Lemma bandBins_In nb M i j :
  In j (bandBins nb M i) <->
  i * binsPerBandOf nb M <= j < (i + 1) * binsPerBandOf nb M /\ j < M.
Proof.
  unfold bandBins. rewrite binsRead_seq, in_seq.
  set (w := binsPerBandOf nb M). lia.
Qed.

Lemma bandBins_disjoint nb M i i' j :
  In j (bandBins nb M i) -> In j (bandBins nb M i') -> i = i'.
Proof.
  rewrite !bandBins_In. pose proof (binsPerBand_pos nb M) as Hw.
  set (w := binsPerBandOf nb M) in *. intros [H1 _] [H2 _].
  destruct (Nat.lt_trichotomy i i') as [H|[H|H]]; [exfalso; nia | exact H | exfalso; nia].
Qed.

Lemma bandBins_covered nb M j :
  j < M ->
  (exists i, i < nb /\ In j (bandBins nb M i)) <-> j < nb * binsPerBandOf nb M.
Proof.
  intros Hj. pose proof (binsPerBand_pos nb M) as Hw.
  split.
  - intros (i & Hi & Hin). apply bandBins_In in Hin.
    set (w := binsPerBandOf nb M) in *. nia.
  - intros H. exists (j / binsPerBandOf nb M). split.
    + apply Nat.Div0.div_lt_upper_bound. lia.
    + apply bandBins_In.
      pose proof (Nat.div_mod_eq j (binsPerBandOf nb M)) as E.
      pose proof (Nat.mod_upper_bound j (binsPerBandOf nb M)) as B.
      set (w := binsPerBandOf nb M) in *. set (q := j / w) in *. nia.
Qed.

Lemma bands_width nb M : 0 < nb -> nb <= M -> nb * binsPerBandOf nb M = M - M mod nb.
Proof.
  intros H0 H. rewrite binsPerBand_many_bins by assumption.
  pose proof (Nat.div_mod_eq M nb). lia.
Qed.

Lemma bandsOfBin_In nb M j i :
  In i (bandsOfBin nb M j) <-> i < nb /\ In j (bandBins nb M i).
Proof.
  unfold bandsOfBin. rewrite filter_In, in_seq, existsb_exists. split.
  - intros [H (x & Hx & E)]. apply Nat.eqb_eq in E. subst x. split; [lia|exact Hx].
  - intros [H Hin]. split; [lia|]. exists j. split; [exact Hin | apply Nat.eqb_refl].
Qed.

End Bands.

(** C2, as stated, fails.  A block of 2048 frames has 1024 magnitude bins;
    with thirty bands each band reads 34 bins, the last band reads bins 986
    to 1019 and no more, and bin 1023 is read by no band. *)
Lemma top_bins_in_no_band :
  Spectrum.bandsOfBin 30 1024 1023 = [] /\
  Spectrum.bandBins 30 1024 29 = seq 986 34 /\
  Spectrum.binsPerBandOf 30 1024 = 34.
Proof. vm_compute. auto. Qed.

(** C2, amended.  For M magnitude bins and B >= 1 bands, let w be
    floor(M/B), raised to 1 when it is 0.  Band i reads exactly the
    contiguous bins from i*w up to, and not including, the smaller of
    (i+1)*w and M.  No bin is read by two bands.  A bin is read by one of
    the B bands if and only if it lies below B*w; so every bin is read by
    exactly one band if and only if B divides M or M < B, and when M >= B the
    bins from B*w = M - (M mod B) on, the remainder, are read by no band. *)
Theorem bands_partition_a_prefix (nb M : nat) (Hnb : 0 < nb) :
  let w := Spectrum.binsPerBandOf nb M in
  (forall i j, In j (Spectrum.bandBins nb M i) <-> i * w <= j < (i + 1) * w /\ j < M) /\
  (forall i i' j,
     In j (Spectrum.bandBins nb M i) -> In j (Spectrum.bandBins nb M i') -> i = i') /\
  (forall j, j < M ->
     (exists i, i < nb /\ In j (Spectrum.bandBins nb M i)) <-> j < nb * w) /\
  ((forall j, j < M -> exists i, i < nb /\ In j (Spectrum.bandBins nb M i)) <->
   (M mod nb = 0 \/ M < nb)) /\
  (nb <= M -> nb * w = M - M mod nb).
Proof.
  intros w. split; [|split; [|split; [|split]]].
  - intros i j. apply bandBins_In.
  - intros i i' j. apply bandBins_disjoint.
  - intros j. apply bandBins_covered.
  - assert (Hall : (forall j, j < M -> exists i, i < nb /\ In j (Spectrum.bandBins nb M i))
                   <-> M <= nb * w).
    { split.
      - intros H. destruct (Nat.le_gt_cases M (nb * w)) as [Hle|Hgt]; [exact Hle|].
        exfalso. destruct (H (nb * w) Hgt) as (i & Hi & Hin).
        assert (Hc : nb * w < nb * w)
          by (apply (bandBins_covered nb Hgt); exists i; auto).
        lia.
      - intros H j Hj. apply bandBins_covered; [exact Hj|]. fold w. lia. }
    rewrite Hall. destruct (Nat.le_gt_cases nb M) as [Hle|Hgt].
    + unfold w. rewrite bands_width by assumption.
      pose proof (Nat.mod_upper_bound M nb). lia.
    + unfold w. rewrite binsPerBand_few_bins by assumption. lia.
  - intros Hle. apply bands_width; assumption.
Qed.

Lemma bands_partition_witness :
  (exists i, i < 30 /\ In 1019 (Spectrum.bandBins 30 1024 i)) <->
  1019 < 30 * Spectrum.binsPerBandOf 30 1024.
Proof.
  apply (proj1 (proj2 (proj2 (@bands_partition_a_prefix 30 1024 ltac:(lia))))).
  lia.
Defined.

(** C10. Whatever the number of magnitude bins, the loop over the bands of
    an analyzer with its thirty bands runs without an index out of range:
    binsPerBand is at least 1, and exactly 1 when there are fewer bins than
    bands; every bin the inner loop reads lies below len(magnitudes), so the
    inner loop ends normally from any state; the loop over the bands ends
    normally, and a band that reads no bin holds the reset value 0 when it
    ends. *)
Theorem band_loop_stays_in_range (magnitudes spectrum : list float64)
        (Hbands : Spectrum.numFrequencyBands <= length spectrum) :
  let M := length magnitudes in
  1 <= Spectrum.binsPerBandOf Spectrum.numFrequencyBands M /\
  (M < Spectrum.numFrequencyBands ->
   Spectrum.binsPerBandOf Spectrum.numFrequencyBands M = 1) /\
  (forall i j, In j (Spectrum.bandBins Spectrum.numFrequencyBands M i) -> j < M) /\
  (forall j k bandSum binCount,
     exists r, Spectrum.bandLoop magnitudes j k bandSum binCount = Ret r) /\
  (exists s,
     Spectrum.mapBands Spectrum.numFrequencyBands magnitudes spectrum = Ret s /\
     length s = length spectrum /\
     forall i, Spectrum.bandBins Spectrum.numFrequencyBands M i = [] ->
               nth i s F64.zero = F64.zero).
Proof.
  intros M. split; [|split; [|split; [|split]]].
  - apply binsPerBand_pos.
  - apply binsPerBand_few_bins.
  - intros i j H. apply bandBins_In in H. tauto.
  - intros j k bandSum binCount. rewrite bandLoop_reads. eexists; reflexivity.
  - destruct (@mapBands_values Spectrum.numFrequencyBands magnitudes spectrum Hbands)
      as (s & Hrun & Hlen & Hval).
    exists s. split; [exact Hrun|]. split; [exact Hlen|].
    intros i Hi. rewrite Hval.
    destruct (i <? Spectrum.numFrequencyBands)%nat; [|reflexivity].
    now apply bandValue_no_bin.
Qed.

Lemma band_loop_witness :
  exists s,
    Spectrum.mapBands Spectrum.numFrequencyBands [Fin 2] (repeat F64.zero 30) = Ret s /\
    length s = 30 /\
    forall i, Spectrum.bandBins Spectrum.numFrequencyBands 1 i = [] ->
              nth i s F64.zero = F64.zero.
Proof.
  apply (proj2 (proj2 (proj2 (proj2
    (@band_loop_stays_in_range [Fin 2] (repeat F64.zero 30) (le_n 30)))))).
Defined.

(** * Facts about float64 *)

Section Float64.

Local Open Scope R_scope.


Lemma Req_b_false a b : a <> b -> F64.Req_b a b = false.
Proof. intros H. unfold F64.Req_b. destruct (Req_dec_T a b); tauto. Qed.

Lemma Rlt_b_true a b : a < b -> F64.Rlt_b a b = true.
Proof. intros H. unfold F64.Rlt_b. destruct (Rlt_dec a b); tauto. Qed.

Lemma Rlt_b_false a b : b <= a -> F64.Rlt_b a b = false.
Proof. intros H. unfold F64.Rlt_b. destruct (Rlt_dec a b); [lra | reflexivity]. Qed.

Lemma div_Fin a b : b <> 0 -> F64.div (Fin a) (Fin b) = Fin (a / b).
Proof. intros H. simpl. now rewrite Req_b_false. Qed.


Lemma sqrt_Fin a : 0 <= a -> F64.sqrt (Fin a) = Fin (sqrt a).
Proof. intros H. simpl. now rewrite Rlt_b_false. Qed.

Lemma gtb_Fin_true a b : b < a -> F64.gtb (Fin a) (Fin b) = true.
Proof. apply Rlt_b_true. Qed.

Lemma gtb_Fin_false a b : a <= b -> F64.gtb (Fin a) (Fin b) = false.
Proof. apply Rlt_b_false. Qed.

Lemma of_nat_Fin (n : nat) : F64.of_int (Z.of_nat n) = Fin (INR n).
Proof. unfold F64.of_int. now rewrite INR_IZR_INZ. Qed.

End Float64.

(** * Root mean square *)

Section RootMeanSquare.

Local Open Scope R_scope.

Lemma sumSquares_acc (xs : list R) : forall (samples : list frame) (acc : R),
  map left samples = map Fin xs ->
  fold_left (fun sum sample => F64.add sum (F64.mul (left sample) (left sample)))
            samples (Fin acc) = Fin (acc + sumSq xs).
Proof.
  induction xs as [|x xs IH]; intros [|sample samples] acc H; try discriminate.
  - simpl. now rewrite Rplus_0_r.
  - simpl in H. injection H as Hx Hrest. cbn [fold_left]. rewrite Hx.
    change (F64.add (Fin acc) (F64.mul (Fin x) (Fin x))) with (Fin (acc + x * x)).
    rewrite (IH _ _ Hrest). simpl sumSq.
    f_equal. ring.
Qed.

Lemma sumSquares_Fin (samples : list frame) (xs : list R) :
  map left samples = map Fin xs -> Tui.sumSquares samples = Fin (sumSq xs).
Proof.
  intros H. unfold Tui.sumSquares, F64.zero. rewrite (sumSquares_acc _ _ 0 H).
  now rewrite Rplus_0_l.
Qed.

Lemma sumSq_nonneg xs : 0 <= sumSq xs.
Proof.
  induction xs as [|x xs IH]; simpl; [lra|]. nra.
Qed.

Lemma sumSq_constant xs A :
  (forall x, In x xs -> Rabs x = A) -> sumSq xs = INR (length xs) * (A * A).
Proof.
  induction xs as [|x xs IH]; intros H; [simpl; lra|].
  change (length (x :: xs)) with (S (length xs)). rewrite S_INR.
  simpl sumSq. rewrite IH by (intros y Hy; apply H; now right).
  replace (x * x) with (Rabs x * Rabs x)
    by (unfold Rabs; destruct (Rcase_abs x); ring).
  rewrite (H x) by now left. ring.
Qed.

Lemma length_lefts (samples : list frame) (xs : list R) :
  map left samples = map Fin xs -> length samples = length xs.
Proof.
  intros H. now rewrite <- (length_map left), H, length_map.
Qed.

Lemma rmsOf_Fin (samples : list frame) (xs : list R) :
  map left samples = map Fin xs -> xs <> [] ->
  Tui.rmsOf samples = Fin (sqrt (sumSq xs / INR (length xs))).
Proof.
  intros H Hne. unfold Tui.rmsOf.
  rewrite (sumSquares_Fin _ _ H), of_nat_Fin, (length_lefts _ _ H).
  assert (Hn : 0 < INR (length xs)).
  { apply lt_0_INR. destruct xs; [congruence | simpl; lia]. }
  rewrite div_Fin by lra. apply sqrt_Fin.
  apply Rmult_le_pos; [apply sumSq_nonneg|].
  left. now apply Rinv_0_lt_compat.
Qed.

End RootMeanSquare.

Section Amplitude.

Local Open Scope R_scope.

Variable U : Type.
Variable upstream : upstream_fn U.
Variable FFT : list complex128 -> list complex128.

(** A call that gets frames publishes the features of the whole buffer. *)
Lemma tui_Stream_analyzes (a : Tui.analyzerStreamer U) samples samples' n u' :
  upstream (Tui.streamer a) samples = (samples', n, true, u') ->
  Tui.Stream upstream FFT a samples =
  (Tui.mkAnalyzer u' (copy (Tui.buffer a) samples')
                  (Tui.rmsOf samples') (Tui.freqOf FFT samples'),
   samples', n, true).
Proof.
  intros H. unfold Tui.Stream. now rewrite H.
Qed.

Lemma root_mean_square_constant xs A :
  xs <> [] -> (forall x, In x xs -> Rabs x = A) ->
  sqrt (sumSq xs / INR (length xs)) = A.
Proof.
  intros Hne H.
  assert (Hn : 0 < INR (length xs)).
  { apply lt_0_INR. destruct xs; [congruence | simpl; lia]. }
  assert (HA : 0 <= A).
  { destruct xs as [|x xs]; [congruence|].
    rewrite <- (H x) by now left. apply Rabs_pos. }
  rewrite (sumSq_constant _ H).
  replace (INR (length xs) * (A * A) / INR (length xs)) with (A * A)
    by (field; lra).
  now apply sqrt_square.
Qed.

End Amplitude.

(** * The transform of finite samples *)

Section Transform.

Local Open Scope R_scope.

Lemma complexSamplesOf_Fin (samples : list frame) (xs : list R) :
  map left samples = map Fin xs -> complexSamplesOf samples = map lift xs.
Proof.
  intros H. unfold complexSamplesOf.
  rewrite <- (map_map left (fun v => complex v F64.zero)), H, map_map.
  reflexivity.
Qed.

Lemma combine_map_lift (ns : list nat) : forall (xs : list R),
  combine ns (map lift xs) = map (fun nx => (fst nx, lift (snd nx))) (combine ns xs).
Proof.
  induction ns as [|n ns IH]; intros [|x xs]; simpl; auto. now rewrite IH.
Qed.

Lemma DFT_sum N k (l : list (nat * R)) : forall re im,
  fold_left cadd
    (map (fun nx => cmul (snd nx) (twiddle N k (fst nx)))
         (map (fun nx => (fst nx, lift (snd nx))) l))
    (complex (Fin re) (Fin im)) =
  complex (Fin (re + dftRe N k l)) (Fin (im + dftIm N k l)).
Proof.
  induction l as [|[n x] l IH]; intros re im; simpl map; cbn [fold_left].
  - simpl. now rewrite !Rplus_0_r.
  - change (cadd (complex (Fin re) (Fin im)) (cmul (lift x) (twiddle N k n)))
      with (complex (Fin (re + (x * cos (angle N k n) - 0 * - sin (angle N k n))))
                    (Fin (im + (x * - sin (angle N k n) + 0 * cos (angle N k n))))).
    rewrite IH. simpl dftRe. simpl dftIm. unfold complex. f_equal; f_equal; ring.
Qed.

Lemma DFT_bin_Fin (xs : list R) k :
  DFT_bin (map lift xs) k =
  complex (Fin (dftRe (length xs) k (combine (seq 0 (length xs)) xs)))
          (Fin (dftIm (length xs) k (combine (seq 0 (length xs)) xs))).
Proof.
  unfold DFT_bin. rewrite length_map, combine_map_lift.
  unfold F64.zero. rewrite DFT_sum. now rewrite !Rplus_0_l.
Qed.

Lemma magnitude_Fin re im :
  magnitude (complex (Fin re) (Fin im)) = Fin (sqrt (re * re + im * im)).
Proof.
  unfold magnitude. simpl real. simpl imag.
  change (F64.add (F64.mul (Fin re) (Fin re)) (F64.mul (Fin im) (Fin im)))
    with (Fin (re * re + im * im)).
  apply sqrt_Fin. nra.
Qed.

End Transform.

Lemma firstn_seq (n : nat) : forall a m, firstn n (seq a m) = seq a (Nat.min n m).
Proof.
  induction n as [|n IH]; intros a [|m]; simpl; auto. now rewrite IH.
Qed.

Section Magnitudes.

Local Open Scope R_scope.

Lemma magnitudes_short (x : list complex128) :
  (length x <= 1)%nat -> magnitudesOf (DFT x) = [].
Proof.
  intros H. unfold DFT. destruct (Nat.leb_spec (length x) 1) as [_|H']; [|lia].
  unfold magnitudesOf. replace (length x / 2)%nat with 0%nat; [reflexivity|].
  symmetry. apply Nat.div_small. lia.
Qed.

Lemma magnitudes_DFT (xs : list R) :
  (2 <= length xs)%nat ->
  magnitudesOf (DFT (map lift xs)) =
  map (fun k => Fin (binMagnitude xs k)) (seq 0 (length xs / 2)).
Proof.
  intros H. unfold DFT. rewrite length_map.
  destruct (Nat.leb_spec (length xs) 1) as [H'|_]; [lia|].
  unfold magnitudesOf. rewrite length_map, length_seq, firstn_map, firstn_seq, map_map.
  rewrite Nat.min_l by (apply Nat.Div0.div_le_upper_bound; lia).
  apply map_ext. intros k. rewrite DFT_bin_Fin, magnitude_Fin. reflexivity.
Qed.

Lemma maxIndex_of_zeros (magnitudes : list float64) :
  (forall m, In m magnitudes -> m = Fin 0) ->
  forall i, fold_left Tui.maxStep magnitudes (F64.zero, 0%Z, i) =
            (F64.zero, 0%Z, (i + Z.of_nat (length magnitudes))%Z).
Proof.
  induction magnitudes as [|m magnitudes IH]; intros H i.
  - simpl. now rewrite Z.add_0_r.
  - cbn [fold_left]. rewrite (H m) by now left. unfold Tui.maxStep at 2.
    change (F64.gtb (Fin 0) F64.zero) with (F64.Rlt_b 0 0).
    rewrite Rlt_b_false by lra.
    rewrite IH by (intros m' Hm'; apply H; now right).
    f_equal. cbn [length]. lia.
Qed.

Lemma dft_of_zeros N k (l : list (nat * R)) :
  (forall nx, In nx l -> snd nx = 0) -> dftRe N k l = 0 /\ dftIm N k l = 0.
Proof.
  induction l as [|nx l IH]; intros H; simpl; [split; reflexivity|].
  destruct IH as [-> ->]; [intros y Hy; apply H; now right|].
  rewrite (H nx) by now left. split; ring.
Qed.

Lemma binMagnitude_of_zeros (xs : list R) k :
  (forall x, In x xs -> x = 0) -> binMagnitude xs k = 0.
Proof.
  intros H. unfold binMagnitude.
  destruct (@dft_of_zeros (length xs) k (combine (seq 0 (length xs)) xs)) as [-> ->].
  - intros [n x] Hin. apply in_combine_r in Hin. now apply H.
  - rewrite Rmult_0_l, Rplus_0_l. apply sqrt_0.
Qed.

End Magnitudes.

(** * Silence *)

Section Silence.

Local Open Scope R_scope.

Lemma zeros_of_silence (samples : list frame) :
  (forall s, In s samples -> left s = Fin 0) ->
  map left samples = map Fin (map (fun _ => 0) samples).
Proof.
  intros H. rewrite map_map. apply map_ext_in. exact H.
Qed.

Lemma maxIndex_of_silence (xs : list R) :
  (forall x, In x xs -> x = 0) ->
  Tui.maxIndexOf (magnitudesOf (DFT (map lift xs))) = 0%Z.
Proof.
  intros H. unfold Tui.maxIndexOf.
  destruct (Nat.le_gt_cases (length xs) 1) as [Hs|Hl].
  - rewrite magnitudes_short by now rewrite length_map. reflexivity.
  - rewrite magnitudes_DFT by lia. rewrite maxIndex_of_zeros; [reflexivity|].
    intros m Hm. apply in_map_iff in Hm as (k & <- & _).
    now rewrite binMagnitude_of_zeros.
Qed.

Lemma features_of_silence (samples : list frame) :
  samples <> [] ->
  (forall s, In s samples -> left s = Fin 0) ->
  Tui.rmsOf samples = Fin 0 /\ Tui.freqOf DFT samples = Fin 0.
Proof.
  intros Hne H. pose proof (@zeros_of_silence samples H) as Hxs.
  set (xs := map (fun _ : frame => 0) samples) in *.
  assert (Hz : forall x, In x xs -> x = 0).
  { intros x Hx. apply in_map_iff in Hx as (s & <- & _). reflexivity. }
  assert (Hxne : xs <> []) by (unfold xs; destruct samples; [congruence | discriminate]).
  assert (Hn : 0 < INR (length samples)).
  { apply lt_0_INR. destruct samples; [congruence | simpl; lia]. }
  split.
  - rewrite (@rmsOf_Fin samples xs Hxs Hxne). f_equal.
    apply root_mean_square_constant; [exact Hxne|].
    intros x Hx. rewrite (Hz x Hx). apply Rabs_R0.
  - unfold Tui.freqOf. rewrite (@complexSamplesOf_Fin samples xs Hxs).
    rewrite (@maxIndex_of_silence xs Hz), of_nat_Fin.
    change (F64.mul (F64.of_int 0) (F64.of_int sampleRate))
      with (Fin (0 * IZR sampleRate)).
    rewrite div_Fin by lra. f_equal. field. lra.
Qed.




End Silence.

(** * A partial final block *)

Section PartialBlock.

Local Open Scope R_scope.

Lemma angle_bin_0 N n : angle N 0 n = 0.
Proof. unfold angle. rewrite Nat.mul_0_l. simpl INR. unfold Rdiv. ring. Qed.

Lemma angle_4_1_2 : angle 4 1 2 = PI.
Proof. unfold angle. simpl INR. field. Qed.

Lemma angle_4_1_3 : angle 4 1 3 = 3 * (PI / 2).
Proof. unfold angle. simpl INR. field. Qed.

Lemma binMagnitude_tail_0 : binMagnitude [0; 0; 1; -1] 0 = 0.
Proof.
  unfold binMagnitude. cbn [length seq combine dftRe dftIm fold_right fst snd].
  rewrite !angle_bin_0, cos_0, sin_0.
  replace ((0 * 1 + (0 * 1 + (1 * 1 + (-1 * 1 + 0)))) *
           (0 * 1 + (0 * 1 + (1 * 1 + (-1 * 1 + 0)))) +
           (- (0 * 0) + (- (0 * 0) + (- (1 * 0) + (- (-1 * 0) + 0)))) *
           (- (0 * 0) + (- (0 * 0) + (- (1 * 0) + (- (-1 * 0) + 0))))) with 0 by ring.
  apply sqrt_0.
Qed.

Lemma binMagnitude_tail_1 : 0 < binMagnitude [0; 0; 1; -1] 1.
Proof.
  unfold binMagnitude. cbn [length seq combine dftRe dftIm fold_right fst snd].
  rewrite angle_4_1_2, angle_4_1_3, cos_PI, sin_PI, cos_3PI2, sin_3PI2.
  apply sqrt_lt_R0. nra.
Qed.

Lemma freqOf_tail :
  Tui.freqOf DFT [mono 0; mono 0; mono 1; mono (-1)] = Fin 11025.
Proof.
  unfold Tui.freqOf.
  rewrite (@complexSamplesOf_Fin [mono 0; mono 0; mono 1; mono (-1)]
             [0; 0; 1; -1] eq_refl).
  rewrite magnitudes_DFT by (simpl; lia).
  cbn [length Nat.div Nat.divmod fst seq map].
  unfold Tui.maxIndexOf. cbn [fold_left]. unfold Tui.maxStep.
  rewrite binMagnitude_tail_0.
  change (F64.gtb (Fin 0) F64.zero) with (F64.Rlt_b 0 0).
  rewrite Rlt_b_false by lra.
  unfold F64.zero. rewrite gtb_Fin_true by apply binMagnitude_tail_1.
  cbn [fst snd Z.add Z.of_nat length Pos.of_succ_nat Pos.succ].
  change (F64.mul (F64.of_int 1) (F64.of_int sampleRate))
    with (Fin (1 * IZR sampleRate)).
  unfold F64.of_int. rewrite div_Fin by lra. f_equal. unfold sampleRate. lra.
Qed.

Lemma rmsOf_tail :
  Tui.rmsOf [mono 0; mono 0; mono 1; mono (-1)] = Fin (sqrt (1 / 2)).
Proof.
  rewrite (@rmsOf_Fin [mono 0; mono 0; mono 1; mono (-1)] [0; 0; 1; -1] eq_refl)
    by discriminate.
  do 2 f_equal. simpl. field.
Qed.

(** C1, at a partial final block.  The buffer of four frames still holds the
    frames of an earlier pull; the track ends with two silent frames, so the
    wrapped streamer writes n = 2 frames and reports (2, true).  The
    analyzer publishes the features of all four frames of the buffer: RMS
    sqrt(1/2), not 0, and frequency 1 * 44100 / 4 = 11025 Hz, the divisor
    being len(samples) = 4, where the transform of the two frames written
    gives RMS 0 and frequency 0. *)
Theorem partial_block_analyzes_whole_buffer :
  forwarded (Tui.Stream tape DFT (Tui.newAnalyzer lastFrames) staleBuffer) =
    ([mono 0; mono 0; mono 1; mono (-1)], 2%Z, true) /\
  Tui.getAnalysis (analyzerAfter
    (Tui.Stream tape DFT (Tui.newAnalyzer lastFrames) staleBuffer)) =
    (Fin (sqrt (1 / 2)), Fin 11025) /\
  0 < sqrt (1 / 2) /\
  Tui.rmsOf lastFrames = Fin 0 /\
  Tui.freqOf DFT lastFrames = Fin 0.
Proof.
  rewrite (@tui_Stream_analyzes _ tape DFT (Tui.newAnalyzer lastFrames) staleBuffer
             [mono 0; mono 0; mono 1; mono (-1)] 2%Z [] eq_refl).
  split; [reflexivity|]. split; [|split].
  - unfold Tui.getAnalysis, analyzerAfter. cbn [Tui.rms Tui.freq].
    now rewrite rmsOf_tail, freqOf_tail.
  - apply sqrt_lt_R0. lra.
  - apply features_of_silence; [discriminate|].
    intros s [<-|[<-|[]]]; reflexivity.
Qed.

End PartialBlock.

(** * Smoothing *)

Section Smoothing.

Variable U : Type.
Variable upstream : upstream_fn U.
Variable FFT : list complex128 -> list complex128.

(** A call that gets at least one magnitude bin publishes the smoothed band
    values of the block; what the spectrum held before the call plays no
    part. *)
Lemma spectrum_Stream_transforms (b : Spectrum.analyzerStreamer U)
      (samples samples' : list frame) (n : Z) (u' : U) :
  upstream (Spectrum.streamer b) samples = (samples', n, true, u') ->
  (0 <= n <= Z.of_nat (length samples'))%Z ->
  length (Spectrum.spectrum b) = Spectrum.numFrequencyBands ->
  let block := firstn (Z.to_nat (Spectrum.processSizeOf n)) samples' in
  let magnitudes := magnitudesOf (FFT (complexSamplesOf block)) in
  magnitudes <> [] ->
  exists s,
    Spectrum.Stream upstream FFT b samples =
      Ret (Spectrum.mkAnalyzer u' (copy (Spectrum.buffer b) block) s, samples', n, true) /\
    length s = Spectrum.numFrequencyBands /\
    nth 0 s F64.zero = Spectrum.bandValue Spectrum.numFrequencyBands magnitudes 0 /\
    (forall i, 0 < i < Spectrum.numFrequencyBands ->
       nth i s F64.zero =
       Spectrum.blend (Spectrum.bandValue Spectrum.numFrequencyBands magnitudes i)
                      (nth (i - 1) s F64.zero)).
Proof.
  intros H Hn Hb block magnitudes Hm. unfold Spectrum.Stream. rewrite H.
  simpl negb. cbv iota.
  assert (Hp : (0 <= Spectrum.processSizeOf n <= Z.of_nat (length samples'))%Z).
  { unfold Spectrum.processSizeOf.
    destruct (Z.gtb_spec n Spectrum.bufferSize); unfold Spectrum.bufferSize in *; lia. }
  destruct (Z.ltb_spec (Spectrum.processSizeOf n) 0); [lia|].
  destruct (Z.ltb_spec (Z.of_nat (length samples')) (Spectrum.processSizeOf n)); [lia|].
  simpl orb. cbv iota. fold block. fold magnitudes.
  destruct (Nat.eqb_spec (length magnitudes) 0) as [E|_];
    [destruct magnitudes; [congruence | discriminate]|].
  simpl Spectrum.spectrum.
  destruct (@mapBands_values Spectrum.numFrequencyBands magnitudes
              (Spectrum.spectrum b)) as (t & -> & Hlt & Hvt); [lia|].
  simpl bind.
  destruct (smooth_values t) as (s & -> & Hls & Hs0 & Hsi).
  simpl bind. exists s. split; [reflexivity|]. split; [lia|]. split.
  - rewrite Hs0, Hvt. reflexivity.
  - intros i Hi. rewrite Hsi by lia. rewrite Hvt.
    destruct (Nat.ltb_spec i Spectrum.numFrequencyBands); [reflexivity | lia].
Qed.

(** C7, amended.  When a block is transformed, band 0 of the published
    spectrum is the band value computed for this block, unsmoothed, and every
    band i > 0 is (v_i + 0.5 * out_(i-1)) / 1.5, where v_i is the value
    computed for band i from this block and out_(i-1) is what the same pass,
    going left to right, has just published for the band to the left: the
    neighbour's smoothed value of the current block.  Nothing of the
    spectrum of an earlier block enters. *)
Theorem smoothing_blends_with_published_neighbor (b : Spectrum.analyzerStreamer U)
        (samples samples' : list frame) (n : Z) (u' : U) :
  upstream (Spectrum.streamer b) samples = (samples', n, true, u') ->
  (0 <= n <= Z.of_nat (length samples'))%Z ->
  length (Spectrum.spectrum b) = Spectrum.numFrequencyBands ->
  let block := firstn (Z.to_nat (Spectrum.processSizeOf n)) samples' in
  let magnitudes := magnitudesOf (FFT (complexSamplesOf block)) in
  magnitudes <> [] ->
  exists b',
    Spectrum.Stream upstream FFT b samples = Ret (b', samples', n, true) /\
    length (Spectrum.spectrum b') = Spectrum.numFrequencyBands /\
    nth 0 (Spectrum.spectrum b') F64.zero =
      Spectrum.bandValue Spectrum.numFrequencyBands magnitudes 0 /\
    (forall i, 0 < i < Spectrum.numFrequencyBands ->
       nth i (Spectrum.spectrum b') F64.zero =
       Spectrum.blend (Spectrum.bandValue Spectrum.numFrequencyBands magnitudes i)
                      (nth (i - 1) (Spectrum.spectrum b') F64.zero)).
Proof.
  intros H Hn Hb block magnitudes Hm.
  destruct (@spectrum_Stream_transforms b samples samples' n u' H Hn Hb Hm)
    as (s & Hrun & Hl & H0 & Hi).
  eexists. split; [exact Hrun|]. simpl Spectrum.spectrum. auto.
Qed.

End Smoothing.

Section SmoothingExample.

Local Open Scope R_scope.

Lemma binMagnitude_loud : binMagnitude [1; 1] 0 = 2.
Proof.
  unfold binMagnitude. cbn [length seq combine dftRe dftIm fold_right fst snd].
  rewrite !angle_bin_0, cos_0, sin_0.
  replace ((1 * 1 + (1 * 1 + 0)) * (1 * 1 + (1 * 1 + 0)) +
           (- (1 * 0) + (- (1 * 0) + 0)) * (- (1 * 0) + (- (1 * 0) + 0)))
    with (2 * 2) by ring.
  apply sqrt_square. lra.
Qed.

Lemma magnitudes_loud : magnitudesOf (DFT (complexSamplesOf loudFrames)) = [Fin 2].
Proof.
  rewrite (@complexSamplesOf_Fin loudFrames [1; 1] eq_refl).
  rewrite magnitudes_DFT by (simpl; lia).
  cbn [length Nat.div Nat.divmod fst seq map]. now rewrite binMagnitude_loud.
Qed.

Lemma loudBand_pos : 0 < loudBand.
Proof.
  unfold loudBand.
  assert (H10 : 0 < ln 10) by (rewrite <- ln_1; apply ln_increasing; lra).
  assert (H2 : 0 < ln (2 + 1 / 1000000)) by (rewrite <- ln_1; apply ln_increasing; lra).
  apply Rmult_lt_0_compat; [|lra].
  apply Rmult_lt_0_compat; [lra|].
  apply Rmult_lt_0_compat; [exact H2 | now apply Rinv_0_lt_compat].
Qed.

Lemma bandValue_loud_0 : Spectrum.bandValue 30 [Fin 2] 0 = Fin loudBand.
Proof.
  pose proof loudBand_pos as Hpos.
  assert (E : (0 + 20 * (ln (2 + 1 / 1000000) / ln 10)) / 1 / 100 = loudBand)
    by (unfold loudBand; field; apply Rgt_not_eq; rewrite <- ln_1;
        apply ln_increasing; lra).
  unfold Spectrum.bandValue.
  change (Spectrum.bandBins 30 (length [Fin 2]) 0) with [0%nat].
  unfold Spectrum.bandSumOf, Spectrum.normalize, Spectrum.decibels, F64.zero.
  cbn [fold_left nth length Z.of_nat Pos.of_succ_nat].
  change (F64.add (Fin 2) (Fin (1 / 1000000))) with (Fin (2 + 1 / 1000000)).
  unfold F64.log10. rewrite Rlt_b_false by lra. rewrite Req_b_false by lra.
  change (F64.add (Fin 0) (F64.mul (Fin 20) (Fin (ln (2 + 1 / 1000000) / ln 10))))
    with (Fin (0 + 20 * (ln (2 + 1 / 1000000) / ln 10))).
  unfold F64.of_int. rewrite div_Fin by lra. rewrite div_Fin by lra.
  rewrite E. unfold F64.ltb. rewrite Rlt_b_false by lra. reflexivity.
Qed.

Lemma blend_Fin x y : Spectrum.blend (Fin x) (Fin y) = Fin ((x + y * (1 / 2)) / (3 / 2)).
Proof.
  unfold Spectrum.blend.
  change (F64.add (Fin x) (F64.mul (Fin y) (Fin (1 / 2)))) with (Fin (x + y * (1 / 2))).
  apply div_Fin. lra.
Qed.

(** C7, as stated, fails.  The first block of a track, two frames at full
    scale, gives band 0 the value [loudBand] > 0 and no bin to the other
    bands.  The published bands 1 and 2 are loudBand/3 and loudBand/9.  A
    blend with the left neighbour's value of before the call (0 in a new
    analyzer), or with its value of before the smoothing pass (0 for band
    1), would give 0 in band 1, respectively in band 2. *)
Lemma smoothing_ignores_previous_values :
  exists b',
    Spectrum.Stream tape DFT (Spectrum.newAnalyzer loudFrames) [mono 0; mono 0] =
      Ret (b', loudFrames, 2%Z, true) /\
    0 < loudBand /\
    nth 0 (Spectrum.spectrum b') F64.zero = Fin loudBand /\
    nth 1 (Spectrum.spectrum b') F64.zero = Fin (loudBand / 3) /\
    nth 2 (Spectrum.spectrum b') F64.zero = Fin (loudBand / 9) /\
    Spectrum.blend (Spectrum.bandValue 30 [Fin 2] 1)
      (nth 0 (Spectrum.spectrum (Spectrum.newAnalyzer loudFrames)) F64.zero) = Fin 0 /\
    Spectrum.blend (Spectrum.bandValue 30 [Fin 2] 2) (Spectrum.bandValue 30 [Fin 2] 1) = Fin 0.
Proof.
  destruct (@spectrum_Stream_transforms _ tape DFT (Spectrum.newAnalyzer loudFrames)
              [mono 0; mono 0] loudFrames 2%Z [] eq_refl)
    as (s & Hrun & Hl & H0 & Hi).
  - simpl; lia.
  - reflexivity.
  - change (firstn (Z.to_nat (Spectrum.processSizeOf 2)) loudFrames) with loudFrames.
    rewrite magnitudes_loud. discriminate.
  - change (firstn (Z.to_nat (Spectrum.processSizeOf 2)) loudFrames) with loudFrames in *.
    rewrite magnitudes_loud in *.
    change Spectrum.numFrequencyBands with 30%nat in *.
    assert (E0 : nth 0 s F64.zero = Fin loudBand) by (rewrite H0; apply bandValue_loud_0).
    assert (E1 : nth 1 s F64.zero = Fin (loudBand / 3)).
    { rewrite (Hi 1%nat) by lia. cbn [Nat.sub]. rewrite E0.
      change (Spectrum.bandValue 30 [Fin 2] 1) with (Fin 0).
      rewrite blend_Fin. f_equal. field. }
    assert (E2 : nth 2 s F64.zero = Fin (loudBand / 9)).
    { rewrite (Hi 2%nat) by lia. cbn [Nat.sub]. rewrite E1.
      change (Spectrum.bandValue 30 [Fin 2] 2) with (Fin 0).
      rewrite blend_Fin. f_equal. field. }
    eexists. split; [exact Hrun|]. cbn [Spectrum.spectrum].
    split; [apply loudBand_pos|]. split; [exact E0|]. split; [exact E1|].
    split; [exact E2|]. split.
    + change (Spectrum.bandValue 30 [Fin 2] 1) with (Fin 0).
      change (nth 0 (Spectrum.spectrum (Spectrum.newAnalyzer loudFrames)) F64.zero)
        with (Fin 0).
      rewrite blend_Fin. f_equal. field.
    + change (Spectrum.bandValue 30 [Fin 2] 2) with (Fin 0).
      change (Spectrum.bandValue 30 [Fin 2] 1) with (Fin 0).
      rewrite blend_Fin. f_equal. field.
Qed.

End SmoothingExample.

Lemma smoothing_witness :
  exists b',
    Spectrum.Stream tape DFT (Spectrum.newAnalyzer loudFrames) [mono 0; mono 0] =
      Ret (b', loudFrames, 2%Z, true) /\
    length (Spectrum.spectrum b') = Spectrum.numFrequencyBands /\
    nth 0 (Spectrum.spectrum b') F64.zero =
      Spectrum.bandValue Spectrum.numFrequencyBands
        (magnitudesOf (DFT (complexSamplesOf loudFrames))) 0 /\
    (forall i, 0 < i < Spectrum.numFrequencyBands ->
       nth i (Spectrum.spectrum b') F64.zero =
       Spectrum.blend (Spectrum.bandValue Spectrum.numFrequencyBands
                         (magnitudesOf (DFT (complexSamplesOf loudFrames))) i)
                      (nth (i - 1) (Spectrum.spectrum b') F64.zero)).
Proof.
  apply (@smoothing_blends_with_published_neighbor _ tape DFT
           (Spectrum.newAnalyzer loudFrames) [mono 0; mono 0] loudFrames 2%Z []).
  - reflexivity.
  - simpl; lia.
  - reflexivity.
  - change (firstn (Z.to_nat (Spectrum.processSizeOf 2)) loudFrames) with loudFrames.
    rewrite magnitudes_loud. discriminate.
Defined.

(** * A tick inside a call of Stream *)

Section Snapshot.

Local Open Scope R_scope.

Variable U : Type.
Variable upstream : upstream_fn U.
Variable FFT : list complex128 -> list complex128.

(** The last of the values the analyzer takes during a call is the analyzer
    that [Stream] returns. *)
Lemma StreamStates_last (a : Tui.analyzerStreamer U) (samples : list frame) :
  last (Tui.StreamStates upstream FFT a samples) a =
  analyzerAfter (Tui.Stream upstream FFT a samples).
Proof.
  unfold Tui.StreamStates, Tui.Stream.
  destruct (upstream (Tui.streamer a) samples) as [[[samples' n] ok] u'].
  destruct ok; reflexivity.
Qed.

Lemma StreamStates_analyzes (a : Tui.analyzerStreamer U) samples samples' n u' :
  upstream (Tui.streamer a) samples = (samples', n, true, u') ->
  map (@Tui.getAnalysis U) (Tui.StreamStates upstream FFT a samples) =
  [ (Tui.rms a, Tui.freq a);
    (Tui.rms a, Tui.freq a);
    (Tui.rmsOf samples', Tui.freq a);
    (Tui.rmsOf samples', Tui.freqOf FFT samples') ].
Proof.
  intros H. unfold Tui.StreamStates. now rewrite H.
Qed.

End Snapshot.

Section TornSnapshot.

Local Open Scope R_scope.

(** C8, at a tick that falls inside a call.  A track of two blocks of four
    frames is played through a buffer of four frames.  The first call
    publishes (sqrt(1/2), 11025); the second block is silent and the second
    call publishes (0, 0).  In between, after the assignment to a.rms and
    before the assignment to a.freq, getAnalysis returns (0, 11025): the RMS
    amplitude of the second block with the frequency of the first, the
    result of no block. *)
Theorem tick_inside_Stream_reads_a_mix :
  let a1 := analyzerAfter (Tui.Stream tape DFT (Tui.newAnalyzer twoBlocks) staleBuffer) in
  let samples := [mono 0; mono 0; mono 1; mono (-1)] in
  Tui.getAnalysis a1 = (Fin (sqrt (1 / 2)), Fin 11025) /\
  Tui.getAnalysis (analyzerAfter (Tui.Stream tape DFT a1 samples)) = (Fin 0, Fin 0) /\
  map (@Tui.getAnalysis _) (Tui.StreamStates tape DFT a1 samples) =
    [ (Fin (sqrt (1 / 2)), Fin 11025);
      (Fin (sqrt (1 / 2)), Fin 11025);
      (Fin 0, Fin 11025);
      (Fin 0, Fin 0) ] /\
  0 < sqrt (1 / 2).
Proof.
  intros a1 samples.
  assert (Ha1 : a1 = Tui.mkAnalyzer [mono 0; mono 0; mono 0; mono 0]
                       (copy (repeat (F64.zero, F64.zero) Tui.bufferSize) samples)
                       (Fin (sqrt (1 / 2))) (Fin 11025)).
  { unfold a1.
    rewrite (@tui_Stream_analyzes _ tape DFT (Tui.newAnalyzer twoBlocks) staleBuffer
               samples 4%Z [mono 0; mono 0; mono 0; mono 0] eq_refl).
    unfold analyzerAfter, samples. now rewrite rmsOf_tail, freqOf_tail. }
  assert (Hup : tape (Tui.streamer a1) samples =
                ([mono 0; mono 0; mono 0; mono 0], 4%Z, true, [])).
  { rewrite Ha1. reflexivity. }
  destruct (@features_of_silence [mono 0; mono 0; mono 0; mono 0]) as [Hr Hf];
    [discriminate | intros s [<-|[<-|[<-|[<-|[]]]]]; reflexivity |].
  split; [now rewrite Ha1|]. split; [|split].
  - rewrite (@tui_Stream_analyzes _ tape DFT a1 samples _ _ _ Hup).
    unfold analyzerAfter, Tui.getAnalysis. cbn [Tui.rms Tui.freq]. now rewrite Hr, Hf.
  - rewrite (@StreamStates_analyzes _ tape DFT a1 samples _ _ _ Hup).
    rewrite Hr, Hf, Ha1. reflexivity.
  - apply sqrt_lt_R0. lra.
Qed.

End TornSnapshot.

(** * Facts about strings *)

Section StringFacts.

Local Open Scope string_scope.

Lemma string_length_app (a b : string) :
  String.length (a ++ b) = String.length a + String.length b.
Proof. induction a as [|c a IH]; simpl; auto. Qed.

Lemma string_app_assoc (a b c : string) : (a ++ b) ++ c = a ++ (b ++ c).
Proof. induction a as [|x a IH]; simpl; [reflexivity | now rewrite IH]. Qed.

Lemma string_app_nil_r (a : string) : a ++ "" = a.
Proof. induction a as [|x a IH]; simpl; [reflexivity | now rewrite IH]. Qed.

Lemma substring_all (b : string) : substring 0 (String.length b) b = b.
Proof. induction b as [|c b IH]; simpl; [reflexivity | now rewrite IH]. Qed.

Lemma substring_skip (a b : string) :
  substring (String.length a) (String.length b) (a ++ b) = b.
Proof. induction a as [|c a IH]; simpl; [apply substring_all | exact IH]. Qed.

Lemma substring_split (s : string) : forall n,
  n <= String.length s ->
  s = substring 0 n s ++ substring n (String.length s - n) s.
Proof.
  induction s as [|c s IH]; intros [|n] H; simpl in *; try lia.
  - reflexivity.
  - now rewrite substring_all.
  - rewrite <- IH by lia. reflexivity.
Qed.

Lemma HasSuffix_app (a suffix : string) : GoStrings.HasSuffix (a ++ suffix) suffix = true.
Proof.
  unfold GoStrings.HasSuffix. rewrite string_length_app.
  replace (String.length a + String.length suffix - String.length suffix)
    with (String.length a) by lia.
  rewrite substring_skip, String.eqb_refl.
  destruct (Nat.leb_spec (String.length suffix) (String.length a + String.length suffix));
    [reflexivity | lia].
Qed.

Lemma HasSuffix_inv (s suffix : string) :
  GoStrings.HasSuffix s suffix = true -> exists a, s = a ++ suffix.
Proof.
  unfold GoStrings.HasSuffix. intros H. apply andb_true_iff in H as [Hl He].
  apply Nat.leb_le in Hl. apply String.eqb_eq in He.
  exists (substring 0 (String.length s - String.length suffix) s).
  pose proof (@substring_split s (String.length s - String.length suffix)) as Hs.
  replace (String.length s - (String.length s - String.length suffix))
    with (String.length suffix) in Hs by lia.
  rewrite He in Hs. apply Hs. lia.
Qed.

Lemma HasSuffix_iff (s suffix : string) :
  GoStrings.HasSuffix s suffix = true <-> exists a, s = a ++ suffix.
Proof.
  split; [apply HasSuffix_inv | intros [a ->]; apply HasSuffix_app].
Qed.

Lemma ToLower_app (a b : string) :
  GoStrings.ToLower (a ++ b) = GoStrings.ToLower a ++ GoStrings.ToLower b.
Proof. induction a as [|c a IH]; simpl; [reflexivity | now rewrite IH]. Qed.

Lemma ToLower_app_inv (p : string) : forall s q,
  GoStrings.ToLower s = p ++ q ->
  exists a b, s = a ++ b /\ GoStrings.ToLower a = p /\ GoStrings.ToLower b = q.
Proof.
  induction p as [|c p IH]; intros s q H.
  - exists "", s. auto.
  - destruct s as [|x s]; [discriminate|]. simpl in H. injection H as Hc Hs.
    destruct (IH s q Hs) as (a & b & -> & Ha & Hb).
    exists (String x a), b. simpl. rewrite Ha, Hc. auto.
Qed.

(** A string ends in at most one of two different suffixes of one length. *)
Lemma HasSuffix_exclusive (s suffix suffix' : string) :
  String.length suffix = String.length suffix' -> suffix <> suffix' ->
  GoStrings.HasSuffix s suffix = true -> GoStrings.HasSuffix s suffix' = false.
Proof.
  unfold GoStrings.HasSuffix. intros Hl Hne H.
  apply andb_true_iff in H as [_ He]. apply String.eqb_eq in He.
  rewrite <- Hl, He. apply andb_false_iff. right.
  now apply String.eqb_neq.
Qed.

Lemma HasSuffix_lower_path (dir name suffix : string) :
  GoStrings.HasSuffix (GoStrings.ToLower name) suffix = true ->
  GoStrings.HasSuffix (GoStrings.ToLower (dir ++ name)) suffix = true.
Proof.
  intros H. apply HasSuffix_inv in H as [a Ha].
  rewrite ToLower_app, Ha, <- string_app_assoc. apply HasSuffix_app.
Qed.

End StringFacts.

(** * The scan of the music directory *)

Section ScanFacts.

Local Open Scope string_scope.

Lemma Walk_walkFn (visits : list Scan.visit) : forall files,
  Scan.Walk Scan.walkFn visits files =
  ((files ++ Scan.musicPaths (Scan.beforeFailure visits))%list, Scan.firstFailure visits).
Proof.
  induction visits as [|[path info|path err] visits IH]; intros files; simpl.
  - now rewrite app_nil_r.
  - destruct (Scan.isMusic info); rewrite IH; simpl.
    + now rewrite <- app_assoc.
    + reflexivity.
  - now rewrite app_nil_r.
Qed.

Lemma musicPaths_In (visits : list Scan.visit) (path : string) :
  In path (Scan.musicPaths visits) <->
  exists info, In (Scan.Entry path info) visits /\ Scan.isMusic info = true.
Proof.
  unfold Scan.musicPaths. rewrite in_flat_map. split.
  - intros ([p info|p err] & Hin & Hp); [|destruct Hp].
    destruct (Scan.isMusic info) eqn:E; [|destruct Hp].
    destruct Hp as [<-|[]]. exists info. auto.
  - intros (info & Hin & E). exists (Scan.Entry path info). split; [exact Hin|].
    rewrite E. now left.
Qed.

(** X2. scanMusicDir returns the paths of the music files that the walk
    visits before its first error, in the order of the walk, together with
    that error (nil when there is none): a path is returned if and only if
    it was visited before any error and is a music file. *)
Theorem scan_lists_music_before_first_error (visits : list Scan.visit) :
  Scan.scanMusicDir visits =
    (Scan.musicPaths (Scan.beforeFailure visits), Scan.firstFailure visits) /\
  (forall path,
     In path (fst (Scan.scanMusicDir visits)) <->
     exists info, In (Scan.Entry path info) (Scan.beforeFailure visits) /\
                  Scan.isMusic info = true).
Proof.
  unfold Scan.scanMusicDir. rewrite Walk_walkFn. simpl app.
  split; [reflexivity|]. intros path. apply musicPaths_In.
Qed.

(** X3. A visited entry counts as a music file if and only if it is not a
    directory and its name ends in an extension that is ".mp3" or ".wav"
    once put in lower case; the case of the letters of the extension does
    not matter, and nothing is asked of the rest of the name. *)
Theorem music_extension_in_any_case (info : Scan.FileInfo) :
  Scan.isMusic info = true <->
  Scan.IsDir info = false /\
  exists base ext,
    Scan.Name info = base ++ ext /\
    (GoStrings.ToLower ext = ".mp3" \/ GoStrings.ToLower ext = ".wav").
Proof.
  unfold Scan.isMusic. rewrite andb_true_iff, negb_true_iff, orb_true_iff.
  split.
  - intros [Hd [H|H]]; (split; [exact Hd|]);
      apply HasSuffix_inv in H as [p Hp];
      apply ToLower_app_inv in Hp as (base & ext & Hn & _ & He);
      exists base, ext; auto.
  - intros [Hd (base & ext & Hn & [He|He])]; (split; [exact Hd|]);
      rewrite Hn, ToLower_app, He; [left | right]; apply HasSuffix_app.
Qed.

End ScanFacts.

(** * The playlist of the spectrum program *)

Section PlayerFacts.

Local Open Scope string_scope.

Variables File Decoded : Type.
Variable os_Open : string -> File + string.
Variable mp3_Decode : File -> (Decoded * Z) + string.

Local Abbreviation playOne := (Player.playOne os_Open mp3_Decode).
Local Abbreviation run := (Player.run os_Open mp3_Decode).
Local Abbreviation playable := (Player.playable os_Open mp3_Decode).

Lemma player_played_app (e1 e2 : list Player.event) :
  Player.played (e1 ++ e2) = (Player.played e1 ++ Player.played e2)%list.
Proof. unfold Player.played. now rewrite flat_map_app. Qed.

Lemma player_playOne_played file :
  Player.played (playOne file) = if playable file then [file] else [].
Proof.
  unfold Player.playOne, Player.playAndAnalyze, Player.playable.
  destruct (os_Open file) as [f|e]; [|reflexivity].
  destruct (GoStrings.HasSuffix (GoStrings.ToLower file) ".mp3").
  - destruct (mp3_Decode f) as [[d rate]|e]; reflexivity.
  - destruct (GoStrings.HasSuffix (GoStrings.ToLower file) ".wav"); reflexivity.
Qed.

Lemma player_run_played (files : list string) :
  Player.played (run files) = filter playable files.
Proof.
  unfold Player.run. destruct files as [|f0 files0]; [reflexivity|].
  rewrite player_played_app. simpl (Player.played [Player.Quit]). rewrite app_nil_r.
  generalize (f0 :: files0). intros l.
  induction l as [|f l IH]; [reflexivity|].
  simpl flat_map. rewrite player_played_app, player_playOne_played, IH. simpl filter.
  destruct (playable f); reflexivity.
Qed.

Lemma playable_is_mp3 file :
  playable file = true -> GoStrings.HasSuffix (GoStrings.ToLower file) ".mp3" = true.
Proof.
  unfold Player.playable. destruct (os_Open file); [|discriminate].
  intros H. apply andb_true_iff in H. tauto.
Qed.

Lemma wav_is_not_playable file :
  GoStrings.HasSuffix (GoStrings.ToLower file) ".wav" = true -> playable file = false.
Proof.
  intros H. destruct (playable file) eqn:E; [|reflexivity].
  apply playable_is_mp3 in E.
  rewrite (@HasSuffix_exclusive _ ".wav" ".mp3") in E; [discriminate | reflexivity | discriminate | exact H].
Qed.

(** X4. The spectrum program plays, in playlist order, exactly the files
    that open, whose path in lower case ends in ".mp3", and that decode.  A
    file whose path in lower case ends in ".wav" is never played, whatever
    the file system and the decoder do. *)
Theorem player_plays_mp3_only (files : list string) :
  Player.played (run files) = filter playable files /\
  (forall file, In file (Player.played (run files)) ->
                GoStrings.HasSuffix (GoStrings.ToLower file) ".mp3" = true) /\
  (forall file, GoStrings.HasSuffix (GoStrings.ToLower file) ".wav" = true ->
                ~ In file (Player.played (run files))).
Proof.
  rewrite player_run_played. split; [reflexivity|]. split.
  - intros file H. apply filter_In in H as [_ H]. now apply playable_is_mp3.
  - intros file H Hin. apply filter_In in Hin as [_ Hp].
    rewrite (wav_is_not_playable _ H) in Hp. discriminate.
Qed.

(** X5. A file that the scan returns for its ".wav" name is on the playlist
    and is never played: the scan accepts the extension and playAndAnalyze
    of the spectrum program refuses it. *)
Theorem scanned_wav_is_never_played (visits : list Scan.visit)
        (path dir : string) (info : Scan.FileInfo) :
  In (Scan.Entry path info) (Scan.beforeFailure visits) ->
  Scan.IsDir info = false ->
  GoStrings.HasSuffix (GoStrings.ToLower (Scan.Name info)) ".wav" = true ->
  path = dir ++ Scan.Name info ->
  In path (fst (Scan.scanMusicDir visits)) /\
  ~ In path (Player.played (run (fst (Scan.scanMusicDir visits)))).
Proof.
  intros Hin Hd Hw Hp. split.
  - unfold Scan.scanMusicDir. rewrite Walk_walkFn. simpl.
    apply musicPaths_In. exists info. split; [exact Hin|].
    unfold Scan.isMusic. now rewrite Hd, Hw, orb_true_r.
  - rewrite player_run_played. intros H. apply filter_In in H as [_ H].
    rewrite wav_is_not_playable in H; [discriminate|].
    rewrite Hp. now apply HasSuffix_lower_path.
Qed.

End PlayerFacts.

Lemma scanned_wav_witness :
  In "music/a.WAV"%string
     (fst (Scan.scanMusicDir [Scan.Entry "music/a.WAV" (Scan.mkInfo "a.WAV" false)])) /\
  ~ In "music/a.WAV"%string
       (Player.played
          (Player.run (fun _ : string => @inl unit string tt)
                      (fun _ : unit => @inl (unit * Z) string (tt, 44100%Z))
                      (fst (Scan.scanMusicDir
                              [Scan.Entry "music/a.WAV" (Scan.mkInfo "a.WAV" false)])))).
Proof.
  apply (@scanned_wav_is_never_played unit unit _ _
           [Scan.Entry "music/a.WAV" (Scan.mkInfo "a.WAV" false)]
           "music/a.WAV" "music/" (Scan.mkInfo "a.WAV" false))%string.
  - simpl. left. reflexivity.
  - reflexivity.
  - reflexivity.
  - reflexivity.
Defined.

(** * The dominant frequency stays below half the sample rate *)

Section Nyquist.

Local Open Scope R_scope.

Lemma DFT_length (x : list complex128) : length (DFT x) = length x.
Proof.
  unfold DFT. destruct (length x <=? 1)%nat; [reflexivity|].
  now rewrite length_map, length_seq.
Qed.

Lemma maxStep_bounds (magnitudes : list float64) : forall maxMag maxIndex i,
  (0 <= maxIndex)%Z -> (0 <= i)%Z -> (maxIndex < Z.max 1 i)%Z ->
  let maxIndex' := snd (fst (fold_left Tui.maxStep magnitudes (maxMag, maxIndex, i))) in
  (0 <= maxIndex')%Z /\ (maxIndex' < Z.max 1 (i + Z.of_nat (length magnitudes)))%Z.
Proof.
  induction magnitudes as [|mag magnitudes IH]; intros maxMag maxIndex i H0 Hi Hlt.
  - simpl. rewrite Z.add_0_r. auto.
  - cbn [fold_left].
    replace (i + Z.of_nat (length (mag :: magnitudes)))%Z
      with (i + 1 + Z.of_nat (length magnitudes))%Z by (cbn [length]; lia).
    destruct (Tui.maxStep (maxMag, maxIndex, i) mag) as [[maxMag1 maxIndex1] i1] eqn:E.
    unfold Tui.maxStep in E.
    destruct (F64.gtb mag maxMag); injection E as <- <- <-; apply IH; lia.
Qed.

Lemma maxIndexOf_bounds (magnitudes : list float64) :
  (0 <= Tui.maxIndexOf magnitudes)%Z /\
  (Tui.maxIndexOf magnitudes < Z.max 1 (Z.of_nat (length magnitudes)))%Z.
Proof.
  unfold Tui.maxIndexOf.
  apply (@maxStep_bounds magnitudes F64.zero 0%Z 0%Z); lia.
Qed.

Lemma length_magnitudesOf (fftResult : list complex128) :
  length (magnitudesOf fftResult) = (length fftResult / 2)%nat.
Proof.
  unfold magnitudesOf. rewrite length_map, length_firstn.
  apply Nat.min_l. apply Nat.Div0.div_le_upper_bound. lia.
Qed.

Variable U : Type.
Variable upstream : upstream_fn U.
Variable FFT : list complex128 -> list complex128.

(** X6. When the transform returns as many values as it is given, every
    pull that gets frames into a non-empty buffer publishes a finite
    dominant frequency k * 44100 / len(samples), for a bin index k with
    0 <= 2k < len(samples): at least 0 and below 22050 Hz, whatever the
    samples are. *)
Theorem frequency_is_below_half_the_rate (a : Tui.analyzerStreamer U)
        (samples samples' : list frame) (n : Z) (u' : U) :
  (forall x, length (FFT x) = length x) ->
  upstream (Tui.streamer a) samples = (samples', n, true, u') ->
  samples' <> [] ->
  exists k : Z,
    (0 <= 2 * k < Z.of_nat (length samples'))%Z /\
    Tui.freq (analyzerAfter (Tui.Stream upstream FFT a samples)) =
      Fin (IZR k * 44100 / INR (length samples')) /\
    0 <= IZR k * 44100 / INR (length samples') < 22050.
Proof.
  intros Hfft Hup Hne.
  rewrite (@tui_Stream_analyzes _ _ _ _ _ _ _ _ Hup). simpl analyzerAfter.
  cbn [Tui.freq]. unfold Tui.freqOf.
  set (magnitudes := magnitudesOf (FFT (complexSamplesOf samples'))).
  assert (Hlen : length magnitudes = (length samples' / 2)%nat).
  { unfold magnitudes. rewrite length_magnitudesOf, Hfft.
    unfold complexSamplesOf. now rewrite length_map. }
  destruct (maxIndexOf_bounds magnitudes) as [Hk0 Hk1]. rewrite Hlen in Hk1.
  set (k := Tui.maxIndexOf magnitudes) in *.
  assert (Hpos : (0 < length samples')%nat) by (destruct samples'; [congruence | simpl; lia]).
  assert (H2 : (2 * (length samples' / 2) <= length samples')%nat)
    by (apply Nat.Div0.mul_div_le).
  assert (Hk : (0 <= 2 * k < Z.of_nat (length samples'))%Z) by lia.
  assert (Hn : 0 < INR (length samples')) by now apply lt_0_INR.
  exists k. split; [exact Hk|]. split.
  - rewrite of_nat_Fin.
    change (F64.mul (F64.of_int k) (F64.of_int sampleRate))
      with (Fin (IZR k * IZR sampleRate)).
    rewrite div_Fin by lra. reflexivity.
  - assert (Hk0' : 0 <= IZR k) by now apply IZR_le.
    assert (Hk2 : 2 * IZR k < INR (length samples')).
    { rewrite INR_IZR_INZ, <- mult_IZR. apply IZR_lt. lia. }
    split.
    + apply Rmult_le_pos; [nra | left; now apply Rinv_0_lt_compat].
    + apply Rmult_lt_reg_r with (r := INR (length samples')); [exact Hn|].
      unfold Rdiv. rewrite Rmult_assoc, Rinv_l, Rmult_1_r by lra. nra.
Qed.

End Nyquist.

Lemma frequency_witness :
  exists k : Z,
    (0 <= 2 * k < Z.of_nat (length staleBuffer))%Z /\
    Tui.freq (analyzerAfter
                (Tui.Stream tape DFT (Tui.newAnalyzer twoBlocks) staleBuffer)) =
      Fin (IZR k * 44100 / INR (length staleBuffer)) /\
    (0 <= IZR k * 44100 / INR (length staleBuffer) < 22050)%R.
Proof.
  apply (@frequency_is_below_half_the_rate _ tape DFT (Tui.newAnalyzer twoBlocks)
           staleBuffer [mono 0; mono 0; mono 1; mono (-1)] 4%Z
           [mono 0; mono 0; mono 0; mono 0]).
  - exact DFT_length.
  - reflexivity.
  - discriminate.
Defined.

(** * The analyzers keep the sizes of their slices *)

Section Sizes.

Lemma forEach_length (A : Type) (body : list A -> nat -> outcome (list A)) :
  (forall s i s', body s i = Ret s' -> length s' = length s) ->
  forall idx s s', Spectrum.forEach body idx s = Ret s' -> length s' = length s.
Proof.
  intros Hbody. induction idx as [|i idx IH]; intros s s' H; simpl in H.
  - now injection H as <-.
  - destruct (body s i) as [s1|] eqn:E; [|discriminate]. simpl in H.
    rewrite (IH _ _ H). now apply Hbody with (i := i).
Qed.

Lemma assign_length (A : Type) (s s' : list A) i v :
  assign s i v = Ret s' -> length s' = length s.
Proof.
  unfold assign. destruct (i <? length s); [|discriminate].
  intros [= <-]. apply length_store.
Qed.

Lemma bandBody_length nb magnitudes s i s' :
  Spectrum.bandBody nb magnitudes s i = Ret s' -> length s' = length s.
Proof.
  rewrite bandBody_value.
  destruct (Spectrum.bandBins nb (length magnitudes) i).
  - now intros [= <-].
  - apply assign_length.
Qed.

Lemma smoothBody_length s i s' :
  Spectrum.smoothBody s i = Ret s' -> length s' = length s.
Proof.
  unfold Spectrum.smoothBody. destruct (0 <? i); [|now intros [= <-]].
  destruct (index s i); [|discriminate]. simpl bind.
  destruct (index s (i - 1)); [|discriminate]. simpl bind.
  apply assign_length.
Qed.

Lemma mapBands_length nb magnitudes s s' :
  Spectrum.mapBands nb magnitudes s = Ret s' -> length s' = length s.
Proof.
  unfold Spectrum.mapBands. intros H.
  apply forEach_length in H; [|intros; eapply bandBody_length; eauto].
  now rewrite length_map in H.
Qed.

Lemma smooth_length s s' : Spectrum.smooth s = Ret s' -> length s' = length s.
Proof.
  unfold Spectrum.smooth. apply forEach_length. exact smoothBody_length.
Qed.

Variable U : Type.
Variable upstream : upstream_fn U.
Variable FFT : list complex128 -> list complex128.

(** X7. No call of Stream resizes a slice of the analyzer.  The amplitude
    and frequency analyzer keeps the length of a.buffer on every call; the
    spectrum analyzer, whenever it returns, keeps the lengths of a.buffer and
    of a.spectrum.  Hence an analyzer built by playAndAnalyze has 512,
    respectively 2048 frames of buffer and thirty bands for as long as it
    is used. *)
Theorem Stream_keeps_the_sizes :
  (forall (a : Tui.analyzerStreamer U) samples,
     length (Tui.buffer (analyzerAfter (Tui.Stream upstream FFT a samples))) =
     length (Tui.buffer a)) /\
  (forall (b b' : Spectrum.analyzerStreamer U) samples samples' n ok,
     Spectrum.Stream upstream FFT b samples = Ret (b', samples', n, ok) ->
     length (Spectrum.buffer b') = length (Spectrum.buffer b) /\
     length (Spectrum.spectrum b') = length (Spectrum.spectrum b)).
Proof.
  split.
  - intros a samples. unfold Tui.Stream.
    destruct (upstream (Tui.streamer a) samples) as [[[samples' n] ok] u'].
    destruct ok; simpl; [apply length_copy | reflexivity].
  - intros b b' samples samples' n ok. unfold Spectrum.Stream.
    destruct (upstream (Spectrum.streamer b) samples) as [[[samples1 n1] ok1] u1].
    destruct ok1; simpl negb; cbv iota.
    + destruct (_ || _)%bool; [discriminate|].
      destruct (length _ =? 0)%nat.
      * intros [= <- _ _ _]. simpl. split; [apply length_copy | reflexivity].
      * simpl Spectrum.spectrum. simpl Spectrum.buffer. simpl Spectrum.streamer.
        destruct (Spectrum.mapBands _ _ _) as [s|] eqn:E1; [simpl bind|discriminate].
        destruct (Spectrum.smooth s) as [s'|] eqn:E2; [simpl bind|discriminate].
        intros [= <- _ _ _]. simpl. split; [apply length_copy|].
        rewrite (smooth_length _ E2). apply (mapBands_length _ _ _ E1).
    + intros [= <- _ _ _]. simpl. auto.
Qed.

End Sizes.

Lemma sizes_witness :
  length (Tui.buffer (analyzerAfter
            (Tui.Stream tape DFT (Tui.newAnalyzer twoBlocks) staleBuffer))) =
    length (Tui.buffer (Tui.newAnalyzer twoBlocks)) /\
  exists s,
    Spectrum.Stream tape DFT (Spectrum.newAnalyzer loudFrames) [mono 0; mono 0] =
      Ret (Spectrum.mkAnalyzer []
             (copy (Spectrum.buffer (Spectrum.newAnalyzer loudFrames)) loudFrames) s,
           loudFrames, 2%Z, true) /\
    nth 0 s F64.zero = Fin loudBand /\
    nth 1 s F64.zero = Fin (loudBand / 3) /\
    length (copy (Spectrum.buffer (Spectrum.newAnalyzer loudFrames)) loudFrames) =
      length (Spectrum.buffer (Spectrum.newAnalyzer loudFrames)) /\
    length s = length (Spectrum.spectrum (Spectrum.newAnalyzer loudFrames)).
Proof.
  split; [apply (proj1 (@Stream_keeps_the_sizes _ tape DFT))|].
  destruct (@spectrum_Stream_transforms _ tape DFT (Spectrum.newAnalyzer loudFrames)
              [mono 0; mono 0] loudFrames 2%Z [] eq_refl)
    as (s & Hrun & Hl & H0 & Hi).
  - simpl; lia.
  - reflexivity.
  - change (firstn (Z.to_nat (Spectrum.processSizeOf 2)) loudFrames) with loudFrames.
    rewrite magnitudes_loud. discriminate.
  - change (firstn (Z.to_nat (Spectrum.processSizeOf 2)) loudFrames) with loudFrames in *.
    rewrite magnitudes_loud in *.
    change Spectrum.numFrequencyBands with 30%nat in *.
    assert (E0 : nth 0 s F64.zero = Fin loudBand) by (rewrite H0; apply bandValue_loud_0).
    assert (E1 : nth 1 s F64.zero = Fin (loudBand / 3)%R).
    { rewrite (Hi 1%nat) by lia. cbn [Nat.sub]. rewrite E0.
      change (Spectrum.bandValue 30 [Fin 2] 1) with (Fin 0).
      rewrite blend_Fin. f_equal. field. }
    exists s. split; [exact Hrun|]. split; [exact E0|]. split; [exact E1|].
    exact (proj2 (@Stream_keeps_the_sizes _ tape DFT) _ _ _ _ _ _ Hrun).
Defined.

(** * The values of the bands *)

Section BandValues.

Local Open Scope R_scope.

Lemma ln_10_pos : 0 < ln 10.
Proof. rewrite <- ln_1. apply ln_increasing; lra. Qed.

Lemma decibels_Fin r :
  0 <= r -> Spectrum.decibels (Fin r) = Fin (20 * (ln (r + 1 / 1000000) / ln 10)).
Proof.
  intros H. unfold Spectrum.decibels.
  change (F64.add (Fin r) (Fin (1 / 1000000))) with (Fin (r + 1 / 1000000)).
  unfold F64.log10. rewrite Rlt_b_false by lra. rewrite Req_b_false by lra.
  reflexivity.
Qed.

Lemma nth_nonnegative (magnitudes : list float64) j :
  (forall m, In m magnitudes -> nonnegative m) ->
  nonnegative (nth j magnitudes F64.zero).
Proof.
  intros H. destruct (Nat.lt_ge_cases j (length magnitudes)) as [Hj|Hj].
  - apply H. now apply nth_In.
  - rewrite nth_overflow by lia. exists 0. split; [reflexivity | lra].
Qed.

Lemma bandSumOf_Fin (magnitudes : list float64) (bins : list nat) :
  (forall m, In m magnitudes -> nonnegative m) ->
  forall acc, exists sum, Spectrum.bandSumOf magnitudes bins (Fin acc) = Fin sum.
Proof.
  intros H. induction bins as [|j bins IH]; intros acc.
  - exists acc. reflexivity.
  - unfold Spectrum.bandSumOf. cbn [fold_left].
    destruct (@nth_nonnegative magnitudes j H) as (r & -> & Hr).
    rewrite decibels_Fin by exact Hr.
    change (F64.add (Fin acc) (Fin (20 * (ln (r + 1 / 1000000) / ln 10))))
      with (Fin (acc + 20 * (ln (r + 1 / 1000000) / ln 10))).
    apply IH.
Qed.

Lemma normalize_Fin sum (count : Z) :
  (0 < count)%Z -> nonnegative (Spectrum.normalize (Fin sum) count).
Proof.
  intros H. unfold Spectrum.normalize, F64.of_int.
  assert (Hc : 0 < IZR count) by now apply IZR_lt.
  rewrite div_Fin by lra. rewrite div_Fin by lra.
  unfold F64.ltb, F64.zero, F64.Rlt_b.
  destruct (Rlt_dec (sum / IZR count / 100) 0) as [Hlt|Hge].
  - exists 0. split; [reflexivity | lra].
  - exists (sum / IZR count / 100). split; [reflexivity | lra].
Qed.

Lemma bandValue_nonnegative nb (magnitudes : list float64) i :
  (forall m, In m magnitudes -> nonnegative m) ->
  nonnegative (Spectrum.bandValue nb magnitudes i).
Proof.
  intros H. unfold Spectrum.bandValue.
  destruct (Spectrum.bandBins nb (length magnitudes) i) as [|j bins].
  - exists 0. split; [reflexivity | lra].
  - destruct (@bandSumOf_Fin magnitudes (j :: bins) H 0) as [sum Hs].
    change (Spectrum.bandSumOf magnitudes (j :: bins) F64.zero)
      with (Spectrum.bandSumOf magnitudes (j :: bins) (Fin 0)).
    rewrite Hs. apply normalize_Fin. simpl length. lia.
Qed.

Lemma blend_nonnegative x y :
  nonnegative x -> nonnegative y -> nonnegative (Spectrum.blend x y).
Proof.
  intros (a & -> & Ha) (b & -> & Hb). rewrite blend_Fin.
  eexists. split; [reflexivity|].
  apply Rmult_le_pos; [lra|]. left. apply Rinv_0_lt_compat. lra.
Qed.

Lemma magnitudes_DFT_nonnegative (xs : list R) m :
  In m (magnitudesOf (DFT (map lift xs))) -> nonnegative m.
Proof.
  destruct (Nat.le_gt_cases (length xs) 1) as [Hs|Hl].
  - rewrite magnitudes_short by now rewrite length_map. intros [].
  - rewrite magnitudes_DFT by lia. intros H.
    apply in_map_iff in H as (k & <- & _).
    eexists. split; [reflexivity|]. unfold binMagnitude. apply sqrt_pos.
Qed.

(** The smoothing pass keeps the bands non-negative. *)
Lemma published_nonnegative (s : list float64) (value : nat -> float64) bands :
  (forall i, nonnegative (value i)) ->
  nth 0 s F64.zero = value 0%nat ->
  (forall i, (0 < i < bands)%nat ->
     nth i s F64.zero = Spectrum.blend (value i) (nth (i - 1) s F64.zero)) ->
  forall i, (i < bands)%nat -> nonnegative (nth i s F64.zero).
Proof.
  intros Hv H0 Hi i. induction i as [|i IH]; intros Hlt.
  - rewrite H0. apply Hv.
  - rewrite Hi by lia. replace (S i - 1)%nat with i by lia.
    apply blend_nonnegative; [apply Hv | apply IH; lia].
Qed.

Variable U : Type.
Variable upstream : upstream_fn U.

(** X8. With the discrete Fourier transform, every block of at least two
    frames whose samples on the analysis channel are normalized (finite,
    between -1 and 1) publishes thirty finite band values, none of them
    negative. *)
Theorem published_bands_are_nonnegative (b : Spectrum.analyzerStreamer U)
        (samples samples' : list frame) (n : Z) (u' : U) (xs : list R) :
  upstream (Spectrum.streamer b) samples = (samples', n, true, u') ->
  (0 <= n <= Z.of_nat (length samples'))%Z ->
  length (Spectrum.spectrum b) = Spectrum.numFrequencyBands ->
  map left (firstn (Z.to_nat (Spectrum.processSizeOf n)) samples') = map Fin xs ->
  (forall x, In x xs -> Rabs x <= 1) ->
  (2 <= length xs)%nat ->
  exists b',
    Spectrum.Stream upstream DFT b samples = Ret (b', samples', n, true) /\
    length (Spectrum.spectrum b') = Spectrum.numFrequencyBands /\
    forall i, (i < Spectrum.numFrequencyBands)%nat ->
      exists v, nth i (Spectrum.spectrum b') F64.zero = Fin v /\ 0 <= v.
Proof.
  intros Hup Hn Hb Hxs _ Hlen.
  pose proof (@complexSamplesOf_Fin _ xs Hxs) as Hc.
  destruct (@spectrum_Stream_transforms _ upstream DFT b samples samples' n u' Hup Hn Hb)
    as (s & Hrun & Hl & H0 & Hi).
  - rewrite Hc, magnitudes_DFT by lia.
    destruct (length xs / 2)%nat eqn:E; [|discriminate].
    apply Nat.div_small_iff in E; lia.
  - rewrite Hc in H0, Hi.
    exists (Spectrum.mkAnalyzer u'
              (copy (Spectrum.buffer b)
                    (firstn (Z.to_nat (Spectrum.processSizeOf n)) samples')) s).
    split; [exact Hrun|]. split; [exact Hl|]. cbn [Spectrum.spectrum].
    apply (@published_nonnegative s
             (Spectrum.bandValue Spectrum.numFrequencyBands
                (magnitudesOf (DFT (map lift xs))))).
    + intros i. apply bandValue_nonnegative. apply magnitudes_DFT_nonnegative.
    + exact H0.
    + exact Hi.
Qed.

End BandValues.

Lemma published_bands_witness :
  exists b',
    Spectrum.Stream tape DFT (Spectrum.newAnalyzer loudFrames) [mono 0; mono 0] =
      Ret (b', loudFrames, 2%Z, true) /\
    length (Spectrum.spectrum b') = Spectrum.numFrequencyBands /\
    forall i, (i < Spectrum.numFrequencyBands)%nat ->
      exists v, nth i (Spectrum.spectrum b') F64.zero = Fin v /\ (0 <= v)%R.
Proof.
  apply (@published_bands_are_nonnegative _ tape (Spectrum.newAnalyzer loudFrames)
           [mono 0; mono 0] loudFrames 2%Z [] [1; 1]%R).
  - reflexivity.
  - simpl; lia.
  - reflexivity.
  - reflexivity.
  - intros x [<-|[<-|[]]]; rewrite Rabs_R1; lra.
  - simpl; lia.
Defined.

(** * Silence and short blocks in the spectrum analyzer *)

Section QuietBlocks.

Local Open Scope R_scope.

Lemma quietDecibels_neg : quietDecibels < 0.
Proof.
  unfold quietDecibels. pose proof ln_10_pos as H10.
  assert (H : ln (0 + 1 / 1000000) < ln 1) by (apply ln_increasing; lra).
  rewrite ln_1 in H.
  assert (Hq : ln (0 + 1 / 1000000) / ln 10 < 0).
  { set (l := ln (0 + 1 / 1000000)) in *.
    assert (Hi : 0 < / ln 10) by now apply Rinv_0_lt_compat.
    unfold Rdiv. nra. }
  lra.
Qed.

Lemma bandSumOf_silent (magnitudes : list float64) (bins : list nat) :
  (forall m, In m magnitudes -> m = Fin 0) ->
  forall acc,
    Spectrum.bandSumOf magnitudes bins (Fin acc) =
    Fin (acc + INR (length bins) * quietDecibels).
Proof.
  intros H. induction bins as [|j bins IH]; intros acc.
  - simpl. f_equal. ring.
  - unfold Spectrum.bandSumOf. cbn [fold_left].
    assert (Hj : nth j magnitudes F64.zero = Fin 0).
    { destruct (Nat.lt_ge_cases j (length magnitudes)) as [Hj|Hj].
      - apply H. now apply nth_In.
      - now rewrite nth_overflow by lia. }
    rewrite Hj, decibels_Fin by lra. fold quietDecibels.
    change (F64.add (Fin acc) (Fin quietDecibels)) with (Fin (acc + quietDecibels)).
    fold (Spectrum.bandSumOf magnitudes bins (Fin (acc + quietDecibels))).
    rewrite IH. change (length (j :: bins)) with (S (length bins)).
    rewrite S_INR. f_equal. ring.
Qed.

Lemma bandValue_silent nb (magnitudes : list float64) i :
  (forall m, In m magnitudes -> m = Fin 0) ->
  Spectrum.bandValue nb magnitudes i = Fin 0.
Proof.
  intros H. unfold Spectrum.bandValue.
  destruct (Spectrum.bandBins nb (length magnitudes) i) as [|j bins]; [reflexivity|].
  change (Spectrum.bandSumOf magnitudes (j :: bins) F64.zero)
    with (Spectrum.bandSumOf magnitudes (j :: bins) (Fin 0)).
  rewrite bandSumOf_silent by exact H.
  unfold Spectrum.normalize. rewrite of_nat_Fin.
  assert (Hc : 0 < INR (length (j :: bins))) by (apply lt_0_INR; simpl; lia).
  rewrite div_Fin by lra. rewrite div_Fin by lra.
  pose proof quietDecibels_neg as Hq.
  unfold F64.ltb, F64.zero. rewrite Rlt_b_true; [reflexivity|].
  replace ((0 + INR (length (j :: bins)) * quietDecibels) / INR (length (j :: bins)) / 100)
    with (quietDecibels / 100) by (field; lra).
  lra.
Qed.

Lemma published_silent (s : list float64) (value : nat -> float64) bands :
  (forall i, value i = Fin 0) ->
  nth 0 s F64.zero = value 0%nat ->
  (forall i, (0 < i < bands)%nat ->
     nth i s F64.zero = Spectrum.blend (value i) (nth (i - 1) s F64.zero)) ->
  forall i, (i < bands)%nat -> nth i s F64.zero = Fin 0.
Proof.
  intros Hv H0 Hi i. induction i as [|i IH]; intros Hlt.
  - now rewrite H0.
  - rewrite Hi by lia. replace (S i - 1)%nat with i by lia.
    rewrite Hv, IH by lia. rewrite blend_Fin. f_equal. field.
Qed.

Variable U : Type.
Variable upstream : upstream_fn U.

(** X9. With the discrete Fourier transform, a block of at least two
    frames that is silent on the analysis channel publishes the spectrum of
    thirty zeros, whatever the spectrum held before. *)
Theorem silent_block_clears_the_bands (b : Spectrum.analyzerStreamer U)
        (samples samples' : list frame) (n : Z) (u' : U) :
  upstream (Spectrum.streamer b) samples = (samples', n, true, u') ->
  (0 <= n <= Z.of_nat (length samples'))%Z ->
  length (Spectrum.spectrum b) = Spectrum.numFrequencyBands ->
  let block := firstn (Z.to_nat (Spectrum.processSizeOf n)) samples' in
  (forall s, In s block -> left s = Fin 0) ->
  (2 <= length block)%nat ->
  exists b',
    Spectrum.Stream upstream DFT b samples = Ret (b', samples', n, true) /\
    Spectrum.spectrum b' = repeat F64.zero Spectrum.numFrequencyBands.
Proof.
  intros Hup Hn Hb block Hsil Hlen.
  pose proof (@zeros_of_silence block Hsil) as Hxs.
  set (xs := map (fun _ : frame => 0) block) in *.
  assert (Hz : forall x, In x xs -> x = 0).
  { intros x Hx. apply in_map_iff in Hx as (s & <- & _). reflexivity. }
  assert (Hxl : length xs = length block) by (unfold xs; apply length_map).
  pose proof (@complexSamplesOf_Fin block xs Hxs) as Hc.
  assert (Hm : forall m, In m (magnitudesOf (DFT (map lift xs))) -> m = Fin 0).
  { rewrite magnitudes_DFT by lia. intros m Hin.
    apply in_map_iff in Hin as (k & <- & _). now rewrite binMagnitude_of_zeros. }
  destruct (@spectrum_Stream_transforms _ upstream DFT b samples samples' n u' Hup Hn Hb)
    as (s & Hrun & Hl & H0 & Hi).
  - fold block. rewrite Hc, magnitudes_DFT by lia.
    destruct (length xs / 2)%nat eqn:E; [|discriminate].
    apply Nat.div_small_iff in E; lia.
  - fold block in H0, Hi, Hrun. rewrite Hc in H0, Hi.
    eexists. split; [exact Hrun|]. cbn [Spectrum.spectrum].
    apply nth_ext with (d := F64.zero) (d' := F64.zero).
    + now rewrite repeat_length.
    + intros i Hlt. rewrite nth_repeat.
      apply (@published_silent s
               (Spectrum.bandValue Spectrum.numFrequencyBands
                  (magnitudesOf (DFT (map lift xs)))) Spectrum.numFrequencyBands);
        [intros j; now apply bandValue_silent | exact H0 | exact Hi | lia].
Qed.

Variable FFT : list complex128 -> list complex128.

(** X10. When the transform returns as many values as it is given, a pull
    that gets no more than one frame and reports ok leaves the published
    spectrum as it was: the frames go into a.buffer, there is no magnitude
    bin, and Stream returns before the spectrum is reset. *)
Theorem short_block_keeps_the_spectrum (b : Spectrum.analyzerStreamer U)
        (samples samples' : list frame) (n : Z) (u' : U) :
  (forall x, length (FFT x) = length x) ->
  upstream (Spectrum.streamer b) samples = (samples', n, true, u') ->
  (0 <= n <= 1)%Z ->
  (n <= Z.of_nat (length samples'))%Z ->
  Spectrum.Stream upstream FFT b samples =
  Ret (Spectrum.mkAnalyzer u'
         (copy (Spectrum.buffer b) (firstn (Z.to_nat n) samples'))
         (Spectrum.spectrum b),
       samples', n, true).
Proof.
  intros Hfft Hup Hn Hle. unfold Spectrum.Stream. rewrite Hup.
  simpl negb. cbv iota.
  assert (Hp : Spectrum.processSizeOf n = n).
  { unfold Spectrum.processSizeOf, Spectrum.bufferSize.
    destruct (Z.gtb_spec n 2048); [lia | reflexivity]. }
  rewrite Hp.
  destruct (Z.ltb_spec n 0); [lia|].
  destruct (Z.ltb_spec (Z.of_nat (length samples')) n); [lia|].
  simpl orb. cbv iota.
  rewrite length_magnitudesOf, Hfft. unfold complexSamplesOf.
  rewrite length_map, length_firstn.
  replace (Nat.min (Z.to_nat n) (length samples') / 2)%nat with 0%nat; [reflexivity|].
  symmetry. apply Nat.div_small. lia.
Qed.

End QuietBlocks.

Lemma silent_bands_witness :
  exists b',
    Spectrum.Stream silence DFT (Spectrum.newAnalyzer tt) [mono 1; mono 1] =
      Ret (b', [(F64.zero, F64.zero); (F64.zero, F64.zero)], 2%Z, true) /\
    Spectrum.spectrum b' = repeat F64.zero Spectrum.numFrequencyBands.
Proof.
  apply (@silent_block_clears_the_bands unit silence (Spectrum.newAnalyzer tt)
           [mono 1; mono 1] [(F64.zero, F64.zero); (F64.zero, F64.zero)] 2%Z tt).
  - reflexivity.
  - simpl; lia.
  - reflexivity.
  - intros s [<-|[<-|[]]]; reflexivity.
  - simpl; lia.
Defined.

Lemma short_block_witness :
  Spectrum.Stream tape DFT (Spectrum.newAnalyzer [mono 1]) [mono 0; mono 0] =
  Ret (Spectrum.mkAnalyzer []
         (copy (Spectrum.buffer (Spectrum.newAnalyzer [mono 1]))
               (firstn (Z.to_nat 1) [mono 1; mono 0]))
         (Spectrum.spectrum (Spectrum.newAnalyzer [mono 1])),
       [mono 1; mono 0], 1%Z, true).
Proof.
  apply (@short_block_keeps_the_spectrum _ tape DFT (Spectrum.newAnalyzer [mono 1])
           [mono 0; mono 0] [mono 1; mono 0] 1%Z []).
  - exact DFT_length.
  - reflexivity.
  - lia.
  - simpl; lia.
Defined.

(** * What is drawn *)

Section Drawing.

Local Open Scope string_scope.

Variable indefinite : float64 -> Z.

Lemma concat_cons (x : string) (l : list string) :
  String.concat "" (x :: l) = x ++ String.concat "" l.
Proof.
  destruct l as [|y l]; simpl; [now rewrite string_app_nil_r | reflexivity].
Qed.

Lemma copies_app (s : string) (a b : nat) :
  GoStrings.copies s (a + b) = GoStrings.copies s a ++ GoStrings.copies s b.
Proof.
  induction a as [|a IH]; simpl; [reflexivity|].
  now rewrite IH, string_app_assoc.
Qed.

Lemma concat_constant (f : nat -> string) (c : string) (n : nat) : forall a,
  (forall i, (a <= i < a + n)%nat -> f i = c) ->
  String.concat "" (map f (seq a n)) = GoStrings.copies c n.
Proof.
  induction n as [|n IH]; intros a H; [reflexivity|].
  simpl seq. simpl map. rewrite concat_cons, (H a) by lia.
  simpl GoStrings.copies. f_equal. apply IH. intros i Hi. apply H. lia.
Qed.

Lemma barCells_shape (barLength : Z) :
  (barLength <= 50)%Z ->
  String.concat "" (Display.barCells barLength) =
  GoStrings.copies "=" (Z.to_nat barLength) ++
  GoStrings.copies " " (50 - Z.to_nat barLength).
Proof.
  intros H. unfold Display.barCells.
  set (k := Z.to_nat barLength).
  assert (Hk : (k <= 50)%nat) by (unfold k; lia).
  replace 50%nat with (k + (50 - k))%nat at 1 by lia.
  rewrite seq_app, map_app.
  assert (Happ : forall l1 l2, String.concat "" (l1 ++ l2)%list =
                               String.concat "" l1 ++ String.concat "" l2).
  { induction l1 as [|x l1 IH]; intros l2; [reflexivity|].
    rewrite <- app_comm_cons, !concat_cons, IH. now rewrite string_app_assoc. }
  rewrite Happ. f_equal.
  - apply concat_constant. intros i Hi.
    destruct (Z.ltb_spec (Z.of_nat i) barLength); [reflexivity | unfold k in *; lia].
  - apply concat_constant. intros i Hi.
    destruct (Z.ltb_spec (Z.of_nat i) barLength); [unfold k in *; lia | reflexivity].
Qed.

(** X11. printAnalysis draws a bar of exactly fifty cells between the
    brackets, whatever the RMS value (negative, above 1, infinite or NaN)
    and whatever int() makes of it: k cells "=" followed by 50 - k blanks,
    with k <= 50. *)
Theorem amplitude_line_has_fifty_cells (rms : float64) :
  exists k : nat,
    (k <= 50)%nat /\
    Display.amplitudeLine indefinite rms =
    "Amplitude: [" ++ GoStrings.copies "=" k ++ GoStrings.copies " " (50 - k) ++
    "]" ++ newline.
Proof.
  unfold Display.amplitudeLine.
  set (b0 := to_int indefinite (F64.mul rms (Fin 50))).
  set (b := if (b0 >? 50)%Z then 50%Z else b0).
  assert (Hb : (b <= 50)%Z) by (unfold b; destruct (Z.gtb_spec b0 50); lia).
  exists (Z.to_nat b). split; [lia|].
  rewrite (barCells_shape Hb). now rewrite !string_app_assoc.
Qed.

End Drawing.

Section Bars.

Variable indefinite : float64 -> Z.

Lemma to_int_floor (x : R) :
  (0 <= x)%R -> (x < 9223372036854775808)%R ->
  to_int indefinite (Fin x) = Int_part x /\ (0 <= Int_part x)%Z.
Proof.
  intros H0 Hx. destruct (base_Int_part x) as [Hle Hgt].
  assert (Hnn : (0 <= Int_part x)%Z).
  { assert (H : (-1 < Int_part x)%Z) by (apply lt_IZR; lra). lia. }
  assert (Hlt : (Int_part x < 2 ^ 63)%Z).
  { apply lt_IZR. change (2 ^ 63)%Z with 9223372036854775808%Z. lra. }
  split; [|exact Hnn].
  unfold to_int, trunc. rewrite Rlt_b_false by lra.
  destruct (Z.leb_spec (- 2 ^ 63) (Int_part x)); [|lia].
  destruct (Z.ltb_spec (Int_part x) (2 ^ 63)); [reflexivity | lia].
Qed.

(** X12. For every RMS amplitude r >= 0 with 20 * r at most 2^62 the
    amplitude bar of the terminal UI has exactly twenty rows: k rows with
    the full block first, then 20 - k blank rows, for a k of at most 20.
    The filled rows are the top rows.  The bar is full, k = 20, from r = 1
    on, and empty, k = 0, at r = 0. *)
Theorem amplitude_bar_has_twenty_rows (r : R) :
  (0 <= r)%R -> (r * 20 <= 4611686018427387904)%R ->
  exists k : nat,
    k <= 20 /\
    Display.amplitudeBar indefinite (Fin r) =
    Ret (GoStrings.copies (fullBlock ++ newline) k ++
         GoStrings.copies (" " ++ newline) (20 - k))%string /\
    ((1 <= r)%R -> k = 20) /\
    (r = 0%R -> k = 0).
Proof.
  intros H0 Hr.
  destruct (@to_int_floor (r * 20)) as [Hi Hnn]; [nra | lra |].
  destruct (base_Int_part (r * 20)) as [Hle Hgt].
  exists (Z.to_nat (Z.min 20 (Int_part (r * 20)))).
  set (k := Z.to_nat (Z.min 20 (Int_part (r * 20)))).
  split; [unfold k; lia|].
  split; [|split].
  2:{ intros H1. assert (H : (19 < Int_part (r * 20))%Z) by (apply lt_IZR; lra).
      unfold k. lia. }
  2:{ intros ->. assert (H : (Int_part (0 * 20) < 1)%Z) by (apply lt_IZR; lra).
      unfold k. lia. }
  unfold Display.amplitudeBar, Display.barHeightOf.
  change (F64.mul (Fin r) (F64.of_int 20)) with (Fin (r * 20)).
  rewrite Hi.
  set (h := if (Int_part (r * 20) >? 20)%Z then 20%Z else Int_part (r * 20)).
  assert (Hh : h = Z.min 20 (Int_part (r * 20)))
    by (unfold h; destruct (Z.gtb_spec (Int_part (r * 20)) 20); lia).
  unfold GoStrings.Repeat.
  destruct (Z.ltb_spec h 0); [lia|].
  destruct (Z.ltb_spec (20 - h) 0); [lia|].
  cbn [bind]. unfold k. rewrite <- Hh.
  replace (Z.to_nat (20 - h)) with (20 - Z.to_nat h) by lia. reflexivity.
Qed.

Lemma bandHeight_range (bandMagnitude : float64) :
  (0 <= Display.bandHeight indefinite bandMagnitude <= 15)%Z.
Proof.
  unfold Display.bandHeight, Display.maxBarHeight.
  set (h := to_int indefinite (F64.mul bandMagnitude (F64.of_int 15))).
  destruct (Z.ltb_spec h 0); destruct (Z.gtb_spec 0 15); try lia;
    destruct (Z.gtb_spec h 15); lia.
Qed.

(** X13. In the view of the spectrum program every band height lies
    between 0 and 15, whatever the band value and whatever int() makes of
    it; the bottom row, h = 0, holds a full block for every band, silent or
    not; and a band of height b holds a full block in exactly b + 1 of the
    sixteen rows. *)
Theorem every_band_shows_a_block (spectrum : list float64) :
  Display.barsRow indefinite spectrum 0 =
    (GoStrings.copies (fullBlock ++ " ") (length spectrum) ++ newline)%string /\
  last Display.rowHeights 1%Z = 0%Z /\
  length Display.rowHeights = 16 /\
  forall bandMagnitude,
    (0 <= Display.bandHeight indefinite bandMagnitude <= 15)%Z /\
    length (filter (fun h => (Display.bandHeight indefinite bandMagnitude >=? h)%Z)
                   Display.rowHeights) =
    Z.to_nat (Display.bandHeight indefinite bandMagnitude) + 1.
Proof.
  split; [|split; [reflexivity | split; [reflexivity|]]].
  - unfold Display.barsRow. f_equal.
    induction spectrum as [|m spectrum IH]; [reflexivity|].
    simpl map. rewrite concat_cons, IH. simpl GoStrings.copies. f_equal.
    unfold Display.bandCell.
    destruct (Z.geb_spec (Display.bandHeight indefinite m) 0) as [_|H]; [reflexivity|].
    pose proof (bandHeight_range m). lia.
  - intros m. pose proof (bandHeight_range m) as Hr. split; [exact Hr|].
    set (b := Display.bandHeight indefinite m) in *.
    assert (Hcases : In b [0; 1; 2; 3; 4; 5; 6; 7; 8; 9; 10; 11; 12; 13; 14; 15]%Z).
    { simpl. lia. }
    simpl in Hcases.
    repeat (destruct Hcases as [<-|Hcases]; [reflexivity|]). destruct Hcases.
Qed.

(** X14. The terminal UI shows the last update it was sent: after any
    messages, an updateMsg, and then any messages that are not updates (key
    presses among them), the model holds the song, rms and freq of that
    updateMsg.  In particular the message main sends before a track puts
    rms and freq back to 0 under the new song name. *)
Theorem display_shows_the_last_update (m : Display.model) :
  (forall before r f song after,
     forallb (fun msg => negb (Display.isUpdate msg)) after = true ->
     Display.feed m (before ++ Display.updateMsg r f song :: after) =
     Display.mkModel song r f) /\
  (forall before song,
     Display.feed m (before ++ [Display.trackStart song]) =
     Display.mkModel song F64.zero F64.zero).
Proof.
  assert (Hkeep : forall after m0,
            forallb (fun msg => negb (Display.isUpdate msg)) after = true ->
            Display.feed m0 after = m0).
  { induction after as [|msg after IH]; intros m0 H; [reflexivity|].
    simpl in H. apply andb_true_iff in H as [H1 H2].
    unfold Display.feed. cbn [fold_left]. fold (Display.feed (fst (Display.Update m0 msg)) after).
    rewrite IH by exact H2.
    destruct msg as [key| |]; simpl in *; [|discriminate|reflexivity].
    destruct (_ || _)%bool; reflexivity. }
  assert (Hlast : forall before r f song after,
            forallb (fun msg => negb (Display.isUpdate msg)) after = true ->
            Display.feed m (before ++ Display.updateMsg r f song :: after) =
            Display.mkModel song r f).
  { intros before r f song after H. unfold Display.feed.
    rewrite fold_left_app. cbn [fold_left].
    apply (Hkeep after). exact H. }
  split; [exact Hlast|].
  intros before song. apply Hlast. reflexivity.
Qed.

End Bars.

Lemma amplitude_bar_witness :
  exists k : nat,
    k <= 20 /\
    Display.amplitudeBar (fun _ => 0%Z) (Fin 1) =
    Ret (GoStrings.copies (fullBlock ++ newline) k ++
         GoStrings.copies (" " ++ newline) (20 - k))%string /\
    ((1 <= 1)%R -> k = 20) /\
    (1%R = 0%R -> k = 0).
Proof.
  apply (@amplitude_bar_has_twenty_rows (fun _ => 0%Z) 1%R); lra.
Defined.

Lemma display_witness :
  Display.feed (Display.mkModel "None" F64.zero F64.zero)
    ([Display.KeyMsg "x"] ++ Display.updateMsg (Fin 1) (Fin 440) "a.mp3" ::
     [Display.KeyMsg "q"; Display.otherMsg]) =
  Display.mkModel "a.mp3" (Fin 1) (Fin 440).
Proof.
  apply (proj1 (display_shows_the_last_update
                  (Display.mkModel "None" F64.zero F64.zero))).
  reflexivity.
Defined.

(** * The RMS amplitude in binary64 *)

Section SignOfRms.

Import SpecFloat FloatOps FloatAxioms.

Local Abbreviation plus := Tui64.signClear.











End SignOfRms.

Section RmsInBinary64.

Import SpecFloat FloatOps FloatAxioms.




Variable U : Type.
Variable upstream : U -> list Tui64.frame -> (list Tui64.frame * Z * bool) * U.
Variable FFT : list Tui64.complex128 -> list Tui64.complex128.



End RmsInBinary64.


